(** * search_tweets.py: configuration resolution, stream consumption, export

    A shallow embedding of [tools/search_tweets.py]: the null filter and
    the layered merge of the three configuration sources, the check of
    the required keys, the redaction of sensitive keys, the two loops
    that read the result stream and the CSV / JSON writers. *)

From Stdlib Require Import ZArith Ascii String List Lia.
From Stdlib Require Import DecimalString DecimalN DecimalFacts.
From stdpp Require Import gmap strings list fin_maps.

Local Open Scope string_scope.
Local Open Scope list_scope.
Local Open Scope Z_scope.

(** ** Python values *)

(** The objects that flow through the program: configuration values
    (argparse results, YAML scalars, the decoded [--extra-headers]
    object) and the records of the stream, which are decoded JSON
    ([ResultStream(tweetify=False)]).  A [str] is kept as the bytes of
    its UTF-8 encoding; a lone surrogate, which [json.loads] lets
    through and UTF-8 proper has no bytes for, as the three bytes the
    same layout gives it ([ED A0 80] to [ED BF BF]).  A [dict] is kept
    as its items in insertion order.  Floating point numbers, and
    objects that are no JSON values (a YAML date), are left out. *)
Unset Elimination Schemes.
Inductive value : Type :=
| VNone
| VBool (b : bool)
| VInt (z : Z)
| VStr (s : string)
| VList (items : list value)
| VDict (items : list (string * value)).
Set Elimination Schemes.

(** [v is None] *)
Definition is_none (v : value) : bool :=
  match v with VNone => true | _ => false end.

(** Python truth value, as taken by [if v:] and [v and w]. *)
Definition truthy (v : value) : bool :=
  match v with
  | VNone => false
  | VBool b => b
  | VInt z => negb (z =? 0)
  | VStr s => negb (String.eqb s "")
  | VList l => match l with [] => false | _ => true end
  | VDict d => match d with [] => false | _ => true end
  end.

(** Induction over values that reaches into lists and dictionaries. *)
Section ValueInduction.
Variable P : value → Prop.
Hypothesis HNone : P VNone.
Hypothesis HBool : ∀ b, P (VBool b).
Hypothesis HInt : ∀ z, P (VInt z).
Hypothesis HStr : ∀ s, P (VStr s).
Hypothesis HList : ∀ l, Forall P l → P (VList l).
Hypothesis HDict : ∀ d, Forall (λ kv, P kv.2) d → P (VDict d).

Fixpoint value_ind (v : value) : P v :=
  match v with
  | VNone => HNone
  | VBool b => HBool b
  | VInt z => HInt z
  | VStr s => HStr s
  | VList l =>
      HList l ((fix go (l : list value) : Forall P l :=
                  match l with
                  | [] => @List.Forall_nil _ P
                  | x :: l' => @List.Forall_cons _ P x l' (value_ind x) (go l')
                  end) l)
  | VDict d =>
      HDict d ((fix go (d : list (string * value)) : Forall (λ kv, P kv.2) d :=
                  match d with
                  | [] => @List.Forall_nil _ _
                  | (k, x) :: d' =>
                      @List.Forall_cons _ (λ kv, P kv.2) (k, x) d' (value_ind x) (go d')
                  end) d)
  end.
End ValueInduction.

(** The keys of a [dict] are distinct, at every depth. *)
Fixpoint well_formed (v : value) : bool :=
  match v with
  | VList l => forallb well_formed l
  | VDict d =>
      bool_decide (NoDup (map fst d)) && forallb (λ '(_, x), well_formed x) d
  | _ => true
  end.

(** ** Configuration dictionaries *)

Module Config.

(** A configuration source or the merged configuration: option name to
    value.  Order plays no role for these dictionaries. *)
Abbreviation config := (gmap string value).

(** [dict_filter = lambda x: {k: v for k, v in x.items() if v is not None}] *)
Definition dict_filter (x : config) : config :=
  filter (λ kv, is_none kv.2 = false) x.

(** [merged = dict1.copy(); merged.update(dict2)]: the keys of [dict2]
    replace those of [dict1]. *)
Definition dict_update (dict1 dict2 : config) : config := dict2 ∪ dict1.

(** Modelled from the spec: [searchtweets.merge_dicts], imported by the
    script and not part of it.  "apply file_cfg first, then overlay
    creds_cfg, then overlay cli_cfg, so that later overlays win on key
    collision"; a collision replaces the whole value. *)
Definition merge_dicts (d1 d2 d3 : config) : config :=
  dict_update (dict_update d1 d2) d3.

(** Lines 218-220 of [main]: [config_dict]. *)
Definition config_dict (configfile_dict creds_dict args_dict : config) : config :=
  merge_dicts (dict_filter configfile_dict)
              (dict_filter creds_dict)
              (dict_filter args_dict).

(** [REQUIRED_KEYS = {"pt_rule", "endpoint"}] *)
Definition REQUIRED_KEYS : gset string := {[ "pt_rule"; "endpoint" ]}.

(** What lines 225-228 do: fall through, or print the missing keys and
    leave through [sys.exit]. *)
Inductive validation : Type :=
| Proceed
| SysExit (status : Z) (printed : gset string).

Definition check_required (config_dict : config) : validation :=
  if decide (size (dom (dict_filter config_dict) ∩ REQUIRED_KEYS)
             < size REQUIRED_KEYS)%nat
  then SysExit 1 (REQUIRED_KEYS ∖ dom (dict_filter config_dict))
  else Proceed.

(** [_filter_sensitive_args] *)
Definition sens_args : list string :=
  ["password"; "consumer_key"; "consumer_secret"; "bearer_token"].

Definition _filter_sensitive_args (dict_ : config) : config :=
  filter (λ kv, kv.1 ∉ sens_args) dict_.

(** A dictionary without null values, as [dict_filter] leaves it. *)
Definition present_only (d : config) : Prop :=
  map_Forall (λ _ v, is_none v = false) d.

End Config.

(** ** Effects: standard output, the file system, exceptions *)

(** What [print] sends to the terminal, one entry per call. *)
Inductive output : Type :=
| PrintJson (tweet : value)                (* print(json.dumps(tweet)) *)
| PrintLine (line : string)                (* print("...") *)
| PrintSaved (count : nat) (filename : string).
                         (* print(f"Saved {len(tweets)} tweets to {filename}") *)

(** What a file holds.  A CSV file is kept as the rows handed to the
    [csv] writer, each row the list of its cells; a JSON file as its
    text. *)
Inductive content : Type :=
| CsvRows (rows : list (list value))
| JsonText (text : list ascii).

Inductive exn : Type :=
| KeyError (key : string)
| AttributeError (attr : string)
| ValueError (wrong_fields : list string)
| UnicodeEncodeError
| OSError
| Unmodelled.

(** A stream handle.  [for x in h] calls [iter(h)] and then [next] until
    [StopIteration].  A generator is its own iterator, so what one loop
    has taken is gone for the next loop; a sequence hands out a fresh
    iterator at every [iter]. *)
Inductive iterable : Type :=
| Generator (pending : list value)
| Sequence (elements : list value).

Record world : Type := World {
  stdout : list output;
  files : gmap string content; (* the files the script itself opens *)
  stream : iterable;
  iter_calls : nat;            (* loops started on the handle *)
  pulled : list value          (* records handed out by the handle *)
}.

Inductive result (A : Type) : Type :=
| Ok (a : A)
| Raise (e : exn).
Arguments Ok {A} a.
Arguments Raise {A} e.

Definition M (A : Type) : Type := world → result A * world.

Definition ret {A} (a : A) : M A := λ w, (Ok a, w).
Definition raise {A} (e : exn) : M A := λ w, (Raise e, w).
Definition bind {A B} (m : M A) (k : A → M B) : M B :=
  λ w, match m w with
       | (Ok a, w') => k a w'
       | (Raise e, w') => (Raise e, w')
       end.

Notation "x <- m ;; k" := (bind m (λ x, k))
  (at level 100, m at next level, right associativity, only parsing).
Notation "m >> k" := (bind m (λ _, k))
  (at level 100, right associativity, only parsing).

Definition print (o : output) : M unit :=
  λ w, (Ok tt, World (stdout w ++ [o]) (files w) (stream w) (iter_calls w) (pulled w)).

(** [open(filename, "w")] on a path that can be opened for writing: the
    file is created, or emptied. *)
Definition open_w (filename : string) (c : content) : M unit :=
  λ w, (Ok tt, World (stdout w) (<[filename := c]> (files w)) (stream w)
                     (iter_calls w) (pulled w)).

Definition lift {A} (r : result A) : M A := λ w, (r, w).

(** ** The CSV writer *)

Module Csv.

(** [d.get(key)] on a dictionary kept as its items. *)
Fixpoint dict_get (d : list (string * value)) (key : string) : option value :=
  match d with
  | [] => None
  | (k, v) :: d' => if String.eqb k key then Some v else dict_get d' key
  end.

(** [rowdict.keys()] *)
Definition keys (rowdict : value) : result (list string) :=
  match rowdict with
  | VDict d => Ok (map fst d)
  | _ => Raise (AttributeError "keys")
  end.

(** [(rowdict.get(key, self.restval) for key in self.fieldnames)], with
    [restval=""]. *)
Definition row (fieldnames : list string) (d : list (string * value))
  : list value :=
  map (λ key, default (VStr "") (dict_get d key)) fieldnames.

(** [csv.DictWriter._dict_to_list], with the defaults the script leaves
    in place: [extrasaction="raise"] and [restval=""]. *)
Definition _dict_to_list (fieldnames : list string) (rowdict : value)
  : result (list value) :=
  match rowdict with
  | VDict d =>
      let wrong_fields := filter (λ k, k ∉ fieldnames) (map fst d) in
      match wrong_fields with
      | [] => Ok (row fieldnames d)
      | _ => Raise (ValueError wrong_fields)
      end
  | _ => Raise (AttributeError "keys")
  end.

(** [writer.writerow(row)] on the writer bound to the open file. *)
Definition writerow (filename : string) (row : list value) : M unit :=
  λ w, let rows := match files w !! filename with
                   | Some (CsvRows rows) => rows
                   | _ => []
                   end in
       (Ok tt, World (stdout w) (<[filename := CsvRows (rows ++ [row])]> (files w))
                     (stream w) (iter_calls w) (pulled w)).

(** [DictWriter.writeheader]: the row of the field names themselves. *)
Definition writeheader (filename : string) (fieldnames : list string) : M unit :=
  writerow filename (map VStr fieldnames).

(** [DictWriter.writerows]: the rows are converted one by one as the
    writer asks for them, so the rows before a failing one are written. *)
Fixpoint writerows (filename : string) (fieldnames : list string)
    (rowdicts : list value) : M unit :=
  match rowdicts with
  | [] => ret tt
  | rowdict :: rest =>
      row <- lift (_dict_to_list fieldnames rowdict) ;;
      writerow filename row >>
      writerows filename fieldnames rest
  end.

End Csv.

(** [save_to_csv(tweets, filename)], on a path that can be opened and
    on records whose strings UTF-8 can encode. *)
Definition save_to_csv (tweets : list value) (filename : string) : M unit :=
  match tweets with
  | [] => print (PrintLine "No tweets to save.")
  | first :: _ =>
      keys <- lift (Csv.keys first) ;;
      open_w filename (CsvRows []) >>
      Csv.writeheader filename keys >>
      Csv.writerows filename keys tweets >>
      print (PrintSaved (length tweets) filename)
  end.

(** ** JSON text: the encoder of [json.dump] and the decoder that reads
    the file back *)

Module Json.

Local Open Scope char_scope.

Definition chars (s : string) : list ascii := list_ascii_of_string s.

Definition quote : ascii := "034".
Definition backslash : ascii := "\".
Definition newline : ascii := "010".

(** *** Encoder: [json.dump(obj, fp, ensure_ascii=False, indent=2)] *)

Definition hex_digit (n : N) : ascii :=
  ascii_of_N (if (n <? 10)%N then 48 + n else 87 + n).

(** [ESCAPE_DCT]: the short escapes, and ['\\u{0:04x}'] for the other
    characters below 0x20.  With [ensure_ascii=False] every other
    character, ASCII or not, is written as it is. *)
Definition escape_char (c : ascii) : list ascii :=
  if Ascii.eqb c backslash then [backslash; backslash]
  else if Ascii.eqb c quote then [backslash; quote]
  else if Ascii.eqb c "008" then [backslash; "b"]
  else if Ascii.eqb c "012" then [backslash; "f"]
  else if Ascii.eqb c "010" then [backslash; "n"]
  else if Ascii.eqb c "013" then [backslash; "r"]
  else if Ascii.eqb c "009" then [backslash; "t"]
  else if (N_of_ascii c <? 32)%N
       then [backslash; "u"; "0"; "0";
             hex_digit (N_of_ascii c / 16); hex_digit (N_of_ascii c mod 16)]
  else [c].

(** [encode_basestring] *)
Definition encode_basestring (s : string) : list ascii :=
  quote :: flat_map escape_char (chars s) ++ [quote].

Fixpoint uint_chars (d : Decimal.uint) : list ascii :=
  match d with
  | Decimal.Nil => []
  | Decimal.D0 d => "0" :: uint_chars d
  | Decimal.D1 d => "1" :: uint_chars d
  | Decimal.D2 d => "2" :: uint_chars d
  | Decimal.D3 d => "3" :: uint_chars d
  | Decimal.D4 d => "4" :: uint_chars d
  | Decimal.D5 d => "5" :: uint_chars d
  | Decimal.D6 d => "6" :: uint_chars d
  | Decimal.D7 d => "7" :: uint_chars d
  | Decimal.D8 d => "8" :: uint_chars d
  | Decimal.D9 d => "9" :: uint_chars d
  end.

(** [int.__repr__] *)
Definition encode_int (z : Z) : list ascii :=
  match z with
  | Z0 => ["0"]
  | Zpos p => uint_chars (Pos.to_uint p)
  | Zneg p => "-" :: uint_chars (Pos.to_uint p)
  end.

(** ['\n' + _indent * _current_indent_level], with an indent of two
    spaces. *)
Definition newline_indent (level : nat) : list ascii :=
  newline :: repeat " " (2 * level).

(** [_iterencode]: the chunks, joined.  With an indent the item
    separator is [","] and the key separator [": "]. *)
Fixpoint encode (level : nat) (o : value) : list ascii :=
  match o with
  | VNone => chars "null"
  | VBool true => chars "true"
  | VBool false => chars "false"
  | VInt z => encode_int z
  | VStr s => encode_basestring s
  | VList [] => chars "[]"
  | VList (x :: xs) =>
      "[" :: newline_indent (S level) ++ encode (S level) x ++
      flat_map (λ y, "," :: newline_indent (S level) ++ encode (S level) y) xs ++
      newline_indent level ++ ["]"]
  | VDict [] => chars "{}"
  | VDict ((k, x) :: xs) =>
      "{" :: newline_indent (S level) ++
      encode_basestring k ++ chars ": " ++ encode (S level) x ++
      flat_map (λ kv,
                  "," :: newline_indent (S level) ++
                  encode_basestring kv.1 ++ chars ": " ++ encode (S level) kv.2)
               xs ++
      newline_indent level ++ ["}"]
  end.

Definition dump (obj : value) : list ascii := encode 0 obj.

(** Whether the bytes hold a surrogate: [ED], then a byte from [A0] on
    where UTF-8 proper has [80] to [9F]. *)
Fixpoint has_surrogate (s : list ascii) : bool :=
  match s with
  | [] => false
  | c1 :: rest =>
      match rest with
      | c2 :: _ => Ascii.eqb c1 "237" && (160 <=? N_of_ascii c2)%N
      | [] => false
      end || has_surrogate rest
  end.

(** Whether [s.encode("utf-8")] gives a result, with the error handler
    [strict] that [open] has by default: a surrogate makes it raise. *)
Definition utf8_encodable (s : string) : bool := negb (has_surrogate (chars s)).


(** One chunk of [iterencode], as [fp.write] gets it: its text, and
    whether the file can encode it.  The escapes leave a surrogate as
    it is, so a chunk with a string in it can be encoded when the
    string can. *)
Record chunk : Type := Chunk {
  chunk_text : list ascii;
  chunk_encodable : bool
}.

Definition markup (text : list ascii) : chunk := Chunk text true.

Definition str_chunk (buf : list ascii) (s : string) : chunk :=
  Chunk (buf ++ encode_basestring s) (utf8_encodable s).

(** [_iterencode_list], one item: a scalar goes out in one chunk with
    the bracket or separator before it, a list or dict after it. *)
Definition item_chunks (iterencode : value → list chunk) (buf : list ascii)
    (v : value) : list chunk :=
  match v with
  | VNone => [markup (buf ++ chars "null")]
  | VBool true => [markup (buf ++ chars "true")]
  | VBool false => [markup (buf ++ chars "false")]
  | VInt z => [markup (buf ++ encode_int z)]
  | VStr s => [str_chunk buf s]
  | VList _ | VDict _ => markup buf :: iterencode v
  end.

(** [_iterencode_dict], one member: the key, the key separator, the
    value. *)
Definition member_chunks (iterencode : value → list chunk) (kv : string * value)
  : list chunk :=
  str_chunk [] kv.1 :: markup (chars ": ") :: iterencode kv.2.

(** [_iterencode]: the chunks one by one. *)
Fixpoint iterencode (level : nat) (o : value) : list chunk :=
  match o with
  | VNone => [markup (chars "null")]
  | VBool true => [markup (chars "true")]
  | VBool false => [markup (chars "false")]
  | VInt z => [markup (encode_int z)]
  | VStr s => [str_chunk [] s]
  | VList [] => [markup (chars "[]")]
  | VList (x :: xs) =>
      item_chunks (iterencode (S level)) ("[" :: newline_indent (S level)) x ++
      flat_map (item_chunks (iterencode (S level)) ("," :: newline_indent (S level)))
               xs ++
      [markup (newline_indent level); markup ["]"]]
  | VDict [] => [markup (chars "{}")]
  | VDict (kv :: xs) =>
      markup ["{"] :: markup (newline_indent (S level)) ::
      member_chunks (iterencode (S level)) kv ++
      flat_map (λ kv, markup ("," :: newline_indent (S level)) ::
                      member_chunks (iterencode (S level)) kv)
               xs ++
      [markup (newline_indent level); markup ["}"]]
  end.

(** What [encode] puts out for an item after the first, and for a
    member after the first. *)
Definition item_sep (level : nat) (y : value) : list ascii :=
  "," :: newline_indent (S level) ++ encode (S level) y.

Definition member_sep (level : nat) (kv : string * value) : list ascii :=
  "," :: newline_indent (S level) ++
  encode_basestring kv.1 ++ chars ": " ++ encode (S level) kv.2.

(** What may follow a value in the encoder's output: the end of the
    text, the item separator, or the line break before a closing
    bracket. *)
Definition delimited (rest : list ascii) : Prop :=
  match rest with
  | [] => True
  | c :: _ => c = "," ∨ c = newline
  end.

(** *** Decoder: [json.load], the default [JSONDecoder] *)

Definition is_ws (c : ascii) : bool :=
  Ascii.eqb c " " || Ascii.eqb c "009" || Ascii.eqb c "010" || Ascii.eqb c "013".

(** [WHITESPACE.match(s, end).end()] *)
Fixpoint skip_ws (s : list ascii) : list ascii :=
  match s with
  | c :: r => if is_ws c then skip_ws r else s
  | [] => []
  end.

Definition hex_value (c : ascii) : option N :=
  let n := N_of_ascii c in
  if (48 <=? n)%N && (n <=? 57)%N then Some (n - 48)%N
  else if (97 <=? n)%N && (n <=? 102)%N then Some (n - 87)%N
  else if (65 <=? n)%N && (n <=? 70)%N then Some (n - 55)%N
  else None.

(** [_decode_uXXXX] *)
Definition decode_uXXXX (a b c d : ascii) : option N :=
  x3 ← hex_value a; x2 ← hex_value b; x1 ← hex_value c; x0 ← hex_value d;
  Some (((x3 * 16 + x2) * 16 + x1) * 16 + x0)%N.

(** [chr(uni)], as the bytes of its UTF-8 encoding; a surrogate gets
    the three bytes of that layout. *)
Definition chr (uni : N) : option (list ascii) :=
  if (uni <? 128)%N then Some [ascii_of_N uni]
  else if (uni <? 2048)%N then
    Some [ascii_of_N (192 + uni / 64); ascii_of_N (128 + uni mod 64)]
  else if (uni <? 65536)%N then
    Some [ascii_of_N (224 + uni / 4096); ascii_of_N (128 + (uni / 64) mod 64);
          ascii_of_N (128 + uni mod 64)]
  else
    Some [ascii_of_N (240 + uni / 262144); ascii_of_N (128 + (uni / 4096) mod 64);
          ascii_of_N (128 + (uni / 64) mod 64); ascii_of_N (128 + uni mod 64)].

(** [BACKSLASH] *)
Definition unescape (esc : ascii) : option ascii :=
  if Ascii.eqb esc quote then Some quote
  else if Ascii.eqb esc backslash then Some backslash
  else if Ascii.eqb esc "/" then Some "/"
  else if Ascii.eqb esc "b" then Some "008"
  else if Ascii.eqb esc "f" then Some "012"
  else if Ascii.eqb esc "n" then Some "010"
  else if Ascii.eqb esc "r" then Some "013"
  else if Ascii.eqb esc "t" then Some "009"
  else None.

Definition is_high_surrogate (uni : N) : bool :=
  (55296 <=? uni)%N && (uni <=? 56319)%N.
Definition is_low_surrogate (uni : N) : bool :=
  (56320 <=? uni)%N && (uni <=? 57343)%N.

(** [py_scanstring] with [strict=True], entered after the opening quote:
    the decoded string and the text after the closing quote.  A high
    surrogate with the escape of a low one after it makes one
    character with it; any other surrogate stays on its own. *)
Fixpoint scanstring (s : list ascii) : option (list ascii * list ascii) :=
  match s with
  | [] => None
  | c :: r =>
      if Ascii.eqb c quote then Some ([], r)
      else if Ascii.eqb c backslash then
        match r with
        | [] => None
        | esc :: r1 =>
            if Ascii.eqb esc "u" then
              match r1 with
              | x3 :: x2 :: x1 :: x0 :: r2 =>
                  uni ← decode_uXXXX x3 x2 x1 x0;
                  if is_high_surrogate uni then
                    match r2 with
                    | e1 :: e2 :: y3 :: y2 :: y1 :: y0 :: r3 =>
                        if Ascii.eqb e1 backslash && Ascii.eqb e2 "u" then
                          uni2 ← decode_uXXXX y3 y2 y1 y0;
                          if is_low_surrogate uni2 then
                            ch ← chr (65536 + (uni - 55296) * 1024
                                      + (uni2 - 56320))%N;
                            '(str, rest) ← scanstring r3;
                            Some (ch ++ str, rest)
                          else
                            ch ← chr uni;
                            '(str, rest) ← scanstring r2;
                            Some (ch ++ str, rest)
                        else
                          ch ← chr uni;
                          '(str, rest) ← scanstring r2;
                          Some (ch ++ str, rest)
                    | _ =>
                        ch ← chr uni;
                        '(str, rest) ← scanstring r2;
                        Some (ch ++ str, rest)
                    end
                  else
                    ch ← chr uni;
                    '(str, rest) ← scanstring r2;
                    Some (ch ++ str, rest)
              | _ => None
              end
            else
              ch ← unescape esc;
              '(str, rest) ← scanstring r1;
              Some (ch :: str, rest)
        end
      else if (N_of_ascii c <? 32)%N then None
      else
        '(str, rest) ← scanstring r;
        Some (c :: str, rest)
  end.

Definition digit_of (c : ascii) : option (Decimal.uint → Decimal.uint) :=
  if Ascii.eqb c "0" then Some Decimal.D0
  else if Ascii.eqb c "1" then Some Decimal.D1
  else if Ascii.eqb c "2" then Some Decimal.D2
  else if Ascii.eqb c "3" then Some Decimal.D3
  else if Ascii.eqb c "4" then Some Decimal.D4
  else if Ascii.eqb c "5" then Some Decimal.D5
  else if Ascii.eqb c "6" then Some Decimal.D6
  else if Ascii.eqb c "7" then Some Decimal.D7
  else if Ascii.eqb c "8" then Some Decimal.D8
  else if Ascii.eqb c "9" then Some Decimal.D9
  else None.

Definition is_digit (c : ascii) : bool :=
  match digit_of c with Some _ => true | None => false end.

Definition nonzero_digit (c : ascii) : bool :=
  is_digit c && negb (Ascii.eqb c "0").

(** The characters a JSON integer can start with. *)
Definition number_start (c : ascii) : bool :=
  is_digit c || Ascii.eqb c "-".

(** The longest run of digits at the head of the text. *)
Fixpoint scan_digits (s : list ascii) : Decimal.uint * list ascii :=
  match s with
  | [] => (Decimal.Nil, [])
  | c :: r =>
      match digit_of c with
      | Some dk => let '(d, rest) := scan_digits r in (dk d, rest)
      | None => (Decimal.Nil, s)
      end
  end.

(** Whether the fraction group or the exponent group of [NUMBER_RE]
    matches here: the number is then a float. *)
Definition float_follows (s : list ascii) : bool :=
  match s with
  | c :: r =>
      if Ascii.eqb c "." then
        match r with c1 :: _ => is_digit c1 | [] => false end
      else if Ascii.eqb c "e" || Ascii.eqb c "E" then
        match r with
        | c1 :: r' =>
            if Ascii.eqb c1 "-" || Ascii.eqb c1 "+"
            then match r' with c2 :: _ => is_digit c2 | [] => false end
            else is_digit c1
        | [] => false
        end
      else false
  | [] => false
  end.

(** [NUMBER_RE.match]: an optional minus sign, then a lone zero or a run
    of digits that starts with a non-zero one; then [int(integer)].  A
    float is not a [value]; the model gives up on it. *)
Definition match_number (s : list ascii) : option (value * list ascii) :=
  let '(negative, s1) :=
    match s with
    | c :: r => if Ascii.eqb c "-" then (true, r) else (false, s)
    | [] => (false, s)
    end in
  let '(d, rest) :=
    match s1 with
    | c :: r => if Ascii.eqb c "0" then (Decimal.D0 Decimal.Nil, r)
                else scan_digits s1
    | [] => (Decimal.Nil, [])
    end in
  match d with
  | Decimal.Nil => None
  | _ =>
      if float_follows rest then None
      else Some (VInt (if negative then - Z.of_N (N.of_uint d)
                       else Z.of_N (N.of_uint d)), rest)
  end.

(** [d[key] = v] on a dictionary kept as its items: a key that is there
    keeps its place. *)
Fixpoint dict_set (d : list (string * value)) (key : string) (v : value)
  : list (string * value) :=
  match d with
  | [] => [(key, v)]
  | (k, x) :: d' =>
      if String.eqb k key then (k, v) :: d' else (k, x) :: dict_set d' key v
  end.

(** [dict(pairs)] *)
Definition dict_of_pairs (pairs : list (string * value)) : list (string * value) :=
  fold_left (λ d kv, dict_set d kv.1 kv.2) pairs [].

(** Strips a literal from the head of the text. *)
Fixpoint literal (lit s : list ascii) : option (list ascii) :=
  match lit, s with
  | [], _ => Some s
  | c :: lit', c' :: s' => if Ascii.eqb c c' then literal lit' s' else None
  | _ :: _, [] => None
  end.

(** [scan_once], [JSONArray] and [JSONObject].  The three call each
    other; [fuel] bounds the calls, and the length of the text is
    enough of it.  [elements] is entered at the first value of a
    non-empty array, [members] at the quote of a key. *)
Fixpoint scan_once (fuel : nat) (s : list ascii) {struct fuel}
  : option (value * list ascii) :=
  match fuel with
  | O => None
  | S fuel' =>
      match s with
      | [] => None
      | nextchar :: r =>
          if Ascii.eqb nextchar quote then
            '(str, rest) ← scanstring r;
            Some (VStr (string_of_list_ascii str), rest)
          else if Ascii.eqb nextchar "{" then
            match skip_ws r with
            | c :: r1 =>
                if Ascii.eqb c "}" then Some (VDict [], r1)
                else
                  '(pairs, rest) ← members fuel' (c :: r1);
                  Some (VDict (dict_of_pairs pairs), rest)
            | [] => None
            end
          else if Ascii.eqb nextchar "[" then
            match skip_ws r with
            | c :: r1 =>
                if Ascii.eqb c "]" then Some (VList [], r1)
                else
                  '(values, rest) ← elements fuel' (c :: r1);
                  Some (VList values, rest)
            | [] => None
            end
          else
            match literal (chars "null") s with
            | Some rest => Some (VNone, rest)
            | None =>
            match literal (chars "true") s with
            | Some rest => Some (VBool true, rest)
            | None =>
            match literal (chars "false") s with
            | Some rest => Some (VBool false, rest)
            | None => match_number s
            end end end
      end
  end
with elements (fuel : nat) (s : list ascii) {struct fuel}
  : option (list value * list ascii) :=
  match fuel with
  | O => None
  | S fuel' =>
      '(v, r) ← scan_once fuel' s;
      match skip_ws r with
      | c :: r1 =>
          if Ascii.eqb c "]" then Some ([v], r1)
          else if Ascii.eqb c "," then
            '(values, rest) ← elements fuel' (skip_ws r1);
            Some (v :: values, rest)
          else None
      | [] => None
      end
  end
with members (fuel : nat) (s : list ascii) {struct fuel}
  : option (list (string * value) * list ascii) :=
  match fuel with
  | O => None
  | S fuel' =>
      match s with
      | c0 :: r0 =>
          if Ascii.eqb c0 quote then
            '(key, r) ← scanstring r0;
            match skip_ws r with
            | c :: r1 =>
                if Ascii.eqb c ":" then
                  '(v, r2) ← scan_once fuel' (skip_ws r1);
                  match skip_ws r2 with
                  | c' :: r3 =>
                      if Ascii.eqb c' "}" then
                        Some ([(string_of_list_ascii key, v)], r3)
                      else if Ascii.eqb c' "," then
                        '(pairs, rest) ← members fuel' (skip_ws r3);
                        Some ((string_of_list_ascii key, v) :: pairs, rest)
                      else None
                  | [] => None
                  end
                else None
            | [] => None
            end
          else None
      | [] => None
      end
  end.

(** The decoder finds [v], and what follows it, at the head of any text
    that starts with an encoding of [v]. *)
Definition reads_back (v : value) : Prop :=
  ∀ level fuel rest,
    (length (encode level v) ≤ fuel)%nat → delimited rest →
    scan_once fuel (encode level v ++ rest) = Some (v, rest).

(** [json.loads]: one value, white space allowed around it and nothing
    else after it. *)
Definition loads (s : list ascii) : option value :=
  '(obj, rest) ← scan_once (S (length s)) (skip_ws s);
  match skip_ws rest with
  | [] => Some obj
  | _ => None
  end.

End Json.

(** [fp.write(chunk)] on a text file opened for writing. *)
Definition write (filename : string) (chunk : list ascii) : M unit :=
  λ w, let text := match files w !! filename with
                   | Some (JsonText text) => text
                   | _ => []
                   end in
       (Ok tt, World (stdout w) (<[filename := JsonText (text ++ chunk)]> (files w))
                     (stream w) (iter_calls w) (pulled w)).

(** [save_to_json(tweets, filename)], on a path that can be opened and
    on records whose strings UTF-8 can encode. *)
Definition save_to_json (tweets : list value) (filename : string) : M unit :=
  match tweets with
  | [] => print (PrintLine "No tweets to save.")
  | _ :: _ =>
      open_w filename (JsonText []) >>
      write filename (Json.dump (VList tweets)) >>
      print (PrintSaved (length tweets) filename)
  end.

(** [for chunk in iterable: fp.write(chunk)] on a file opened with
    [encoding="utf-8"]: a chunk the file cannot encode raises, and the
    chunks before it stay written. *)
Fixpoint write_chunks (filename : string) (chunks : list Json.chunk) : M unit :=
  match chunks with
  | [] => ret tt
  | chunk :: rest =>
      if Json.chunk_encodable chunk
      then write filename (Json.chunk_text chunk) >> write_chunks filename rest
      else raise UnicodeEncodeError
  end.

(** [save_to_json(tweets, filename)] with the two failures of its file.
    [opening] says what [open(filename, "w", encoding="utf-8")] does on
    the machine: it goes well, or raises (no such directory, no
    permission). *)
Definition save_to_json_strict (opening : string → result unit)
    (tweets : list value) (filename : string) : M unit :=
  match tweets with
  | [] => print (PrintLine "No tweets to save.")
  | _ :: _ =>
      lift (opening filename) >>
      open_w filename (JsonText []) >>
      write_chunks filename (Json.iterencode 0 (VList tweets)) >>
      print (PrintSaved (length tweets) filename)
  end.

(** ** Reading the stream *)

(** One [next(it)] that yields [x]: the record counts as handed out, and
    a generator moves on. *)
Definition take (own : bool) (x : value) (rest : list value) : M unit :=
  λ w, (Ok tt, World (stdout w) (files w)
                     (if own then Generator rest else stream w)
                     (iter_calls w) (pulled w ++ [x])).

Fixpoint loop {A} (own : bool) (items : list value)
    (body : A → value → M A) (acc : A) : M A :=
  match items with
  | [] => ret acc
  | x :: rest =>
      take own x rest >>
      acc' <- body acc x ;;
      loop own rest body acc'
  end.

(** [for tweet in stream: body], with the variables the body updates
    threaded through as [acc]. *)
Definition for_in {A} (body : A → value → M A) (acc : A) : M A :=
  λ w, let w' := World (stdout w) (files w) (stream w)
                       (S (iter_calls w)) (pulled w) in
       match stream w with
       | Generator pending => loop true pending body acc w'
       | Sequence elements => loop false elements body acc w'
       end.

(** A handle that cannot be read twice. *)
Definition forward_only (h : iterable) : Prop :=
  match h with Generator _ => True | Sequence _ => False end.

(** ** [main], from the first loop over the stream to the end *)

(** [d[key]] *)
Definition getitem (d : gmap string value) (key : string) : M value :=
  match d !! key with
  | Some v => ret v
  | None => raise (KeyError key)
  end.

(** [d.get(key, dflt)] *)
Definition get (d : gmap string value) (key : string) (dflt : value) : value :=
  default dflt (d !! key).

(** [v in ("...", "...")] for a tuple of strings. *)
Definition is_in (v : value) (choices : list string) : bool :=
  match v with
  | VStr s => bool_decide (s ∈ choices)
  | _ => false
  end.

(** [f"{output_base}.csv"].  [args_dict] always carries
    [output_filename] as a [str] and overrides the other sources; the
    formatting of other objects is not modelled. *)
Definition fstring (output_base : value) (suffix : string) : M string :=
  match output_base with
  | VStr s => ret (s +:+ suffix)
  | _ => raise Unmodelled
  end.

(** Lines 262-265: the writers that [export_type] selects. *)
Definition export_selected (export_type output_base : value)
    (all_tweets : list value) : M unit :=
  (if is_in export_type ["csv"; "both"]
   then filename <- fstring output_base ".csv" ;; save_to_csv all_tweets filename
   else ret tt) >>
  (if is_in export_type ["json"; "both"]
   then filename <- fstring output_base ".json" ;; save_to_json all_tweets filename
   else ret tt).

(** The body of the loop of lines 246-247. *)
Definition echo : unit → value → M unit :=
  λ _ tweet, print (PrintJson tweet).

(** The body of the loop of lines 254-256. *)
Definition echo_collect : list value → value → M (list value) :=
  λ all_tweets tweet, print (PrintJson tweet) >> ret (all_tweets ++ [tweet]).

(** Lines 245-265; [stream] is the handle in the world.  Returns
    [all_tweets] as the export step finds it. *)
Definition main_tail (config_dict : gmap string value) : M (list value) :=
  print_stream <- getitem config_dict "print_stream" ;;
  (if truthy print_stream
   then for_in echo tt
   else ret tt) >>
  print_stream <- getitem config_dict "print_stream" ;;
  all_tweets <- (if truthy print_stream
                 then for_in echo_collect []
                 else ret []) ;;
  let export_type := get config_dict "export" VNone in
  let output_base := get config_dict "output_filename" (VStr "tweets_output") in
  (if truthy export_type && truthy (VList all_tweets)
   then export_selected export_type output_base all_tweets
   else ret tt) >>
  ret all_tweets.

(** ** The command line: [parse_cmd_args] *)

Module Argparse.

(** The actions [add_argument] is called with: [store] (the default),
    with [type=int] or [choices] when given, [store_true] and
    [store_false]. *)
Inductive action : Type :=
| Store (of_int : bool) (choices : option (list string))
| StoreTrue
| StoreFalse.

Record argument : Type := Argument {
  option_string : string;
  dest : string;
  default_value : value;
  act : action
}.

(** The calls of [add_argument], in the order of the source.  An
    argument without [default=] has the default [None], a
    [store_false] one the default [True]; [--export] has no [dest=] and
    gets it from its option string. *)
Definition arguments : list argument :=
  [ Argument "--credential-file" "credential_file" VNone (Store false None);
    Argument "--credential-file-key" "credential_yaml_key" VNone (Store false None);
    Argument "--env-overwrite" "env_overwrite" (VBool true) (Store false None);
    Argument "--config-file" "config_filename" VNone (Store false None);
    Argument "--account-type" "account_type" VNone
             (Store false (Some ["premium"; "enterprise"]));
    Argument "--count-bucket" "count_bucket" VNone (Store false None);
    Argument "--start-datetime" "from_date" VNone (Store false None);
    Argument "--end-datetime" "to_date" VNone (Store false None);
    Argument "--filter-rule" "pt_rule" VNone (Store false None);
    Argument "--results-per-call" "results_per_call" VNone (Store false None);
    Argument "--max-results" "max_results" VNone (Store true None);
    Argument "--max-pages" "max_pages" VNone (Store true None);
    Argument "--results-per-file" "results_per_file" VNone (Store true None);
    Argument "--filename-prefix" "filename_prefix" VNone (Store false None);
    Argument "--no-print-stream" "print_stream" (VBool true) StoreFalse;
    Argument "--print-stream" "print_stream" (VBool true) StoreTrue;
    Argument "--extra-headers" "extra_headers" VNone (Store false None);
    Argument "--debug" "debug" (VBool false) StoreTrue;
    Argument "--export" "export" VNone (Store false (Some ["csv"; "json"; "both"]));
    Argument "--filename" "output_filename" (VStr "tweets_output") (Store false None) ].

(** The namespace before any option is read: every [dest] gets the
    default of the first argument that names it. *)
Definition defaults : gmap string value :=
  fold_left (λ ns a, match ns !! dest a with
                     | Some _ => ns
                     | None => <[dest a := default_value a]> ns
                     end)
            arguments ∅.

(** One option as it stands on the command line, once argparse has
    split the line, resolved abbreviations and applied [type=]: the
    option string, and the argument that came with it.  An argument
    that [int] rejected stays a [VStr]. *)
Inductive occurrence : Type :=
| Occurrence (option_string : string) (arg : option value).

Definition find_argument (o : string) : option argument :=
  List.find (λ a, String.eqb (option_string a) o) arguments.

(** The object an action stores, or nothing when argparse rejects the
    occurrence: a missing or unexpected argument, a value that is not
    of the type, a value outside the choices. *)
Definition stored (a : action) (arg : option value) : option value :=
  match a, arg with
  | Store true None, Some (VInt z) => Some (VInt z)
  | Store false None, Some (VStr s) => Some (VStr s)
  | Store false (Some choices), Some (VStr s) =>
      if bool_decide (s ∈ choices) then Some (VStr s) else None
  | StoreTrue, None => Some (VBool true)
  | StoreFalse, None => Some (VBool false)
  | _, _ => None
  end.

Inductive parsed : Type :=
| Namespace (ns : gmap string value)
| SystemExit (status : Z).

(** The options are taken from left to right.  A rejected occurrence
    ends the run with status 2 and [--help] with status 0, both on the
    spot; option strings that no argument has are reported at the end
    of the line, with status 2. *)
Fixpoint take (ns : gmap string value) (unrecognized : bool)
    (occs : list occurrence) : parsed :=
  match occs with
  | [] => if unrecognized then SystemExit 2 else Namespace ns
  | Occurrence o arg :: rest =>
      if String.eqb o "-h" || String.eqb o "--help" then
        match arg with
        | None => SystemExit 0
        | Some _ => SystemExit 2
        end
      else
        match find_argument o with
        | None => take ns true rest
        | Some a =>
            match stored (act a) arg with
            | Some v => take (<[dest a := v]> ns) unrecognized rest
            | None => SystemExit 2
            end
        end
  end.

(** [vars(parse_cmd_args().parse_args())] *)
Definition parse_args (occs : list occurrence) : parsed :=
  take defaults false occs.

(** The attributes of every namespace. *)
Definition dests : gset string := list_to_set (map dest arguments).

End Argparse.

(** ** [main], from the command line to the stream *)

(** The functions [main] imports from the [searchtweets] package.  Each
    may raise, which is [None] here; [rs.stream] and
    [write_result_stream] hand back a handle and do nothing before it
    is read.  The wrapper of [write_result_stream] also writes every
    record it hands out to files of its own, named after the prefix:
    those are not among the [files] of the world, which are the export
    files of the script.  The dictionaries of [read_config] and
    [load_credentials] hold JSON values; with another object in one of
    them (a YAML date) the [json.dumps] of lines 209, 223 and 232,
    which run whatever the log level, raise [TypeError], and such a
    run is not described here. *)
Record collaborators : Type := Collaborators {
  RS : Type;
  read_config : value → option (gmap string value);
  load_credentials : value → value → value → value → option (gmap string value);
  gen_params_from_config : gmap string value → option (gmap string value);
  ResultStream : gmap string value → option RS;
  rs_stream : RS → iterable;
  write_result_stream : RS → value → value → iterable
}.

(** How a run ends before the stream is read, other than well. *)
Inductive failure : Type :=
| SystemExit (status : Z) (printed : gset string)
                             (* print(missing); sys.exit(status) *)
| Uncaught (e : exn)
| TypeError
| HeadersRejected             (* json.loads raised on --extra-headers *)
| CollaboratorRaised (name : string).

(** Lines 198-201: [configfile_dict]. *)
Definition load_configfile (c : collaborators) (args_dict : gmap string value)
  : failure + gmap string value :=
  match args_dict !! "config_filename" with
  | None | Some VNone => inr ∅
  | Some config_filename =>
      match read_config c config_filename with
      | Some configfile_dict => inr configfile_dict
      | None => inl (CollaboratorRaised "read_config")
      end
  end.

(** Lines 203-206: the text of [--extra-headers] is decoded, stored
    under [extra_headers_dict], and the key [extra_headers] deleted.
    The decoder knows no floats: for a text with one, [HeadersRejected]
    stands for a value that is not modelled. *)
Definition move_extra_headers (args_dict : gmap string value)
  : failure + gmap string value :=
  match args_dict !! "extra_headers" with
  | None | Some VNone => inr args_dict
  | Some (VStr extra_headers_str) =>
      match Json.loads (Json.chars extra_headers_str) with
      | Some headers =>
          inr (delete "extra_headers"
                 (<["extra_headers_dict" := headers]> args_dict))
      | None => inl HeadersRejected
      end
  | Some _ => inl TypeError
  end.

(** [args_dict[key]] *)
Definition item (args_dict : gmap string value) (key : string)
  : failure + value :=
  match args_dict !! key with
  | Some v => inr v
  | None => inl (Uncaught (KeyError key))
  end.

(** Lines 211-214: [creds_dict]. *)
Definition credentials (c : collaborators) (args_dict : gmap string value)
  : failure + gmap string value :=
  match item args_dict "credential_file" with
  | inl f => inl f
  | inr filename =>
  match item args_dict "account_type" with
  | inl f => inl f
  | inr account_type =>
  match item args_dict "credential_yaml_key" with
  | inl f => inl f
  | inr yaml_key =>
  match item args_dict "env_overwrite" with
  | inl f => inl f
  | inr env_overwrite =>
      match load_credentials c filename account_type yaml_key env_overwrite with
      | Some creds_dict => inr creds_dict
      | None => inl (CollaboratorRaised "load_credentials")
      end
  end end end end.

(** Lines 238-243: the handle, through the file-writing wrapper when a
    prefix is configured. *)
Definition open_stream (c : collaborators) (rs : RS c)
    (config_dict : gmap string value) : iterable :=
  if is_none (get config_dict "filename_prefix" VNone)
  then rs_stream c rs
  else write_result_stream c rs (get config_dict "filename_prefix" VNone)
                                (get config_dict "results_per_file" VNone).

(** Lines 191-243.  Beside the outcome, the dictionaries handed to
    [logger.debug], in order: [args_dict] as it is when [--debug] is
    given, then the redacted configuration file, merged configuration
    and stream parameters.  The [json.dumps] of lines 209, 223 and 232
    are evaluated whatever the log level; on dictionaries of [value]s,
    which are all JSON values, they give a text, so they show here as
    their arguments alone. *)
Definition prepare (c : collaborators) (args_dict : gmap string value)
  : (failure + gmap string value * iterable) * list (gmap string value) :=
  let log1 := match args_dict !! "debug" with
              | Some (VBool true) => [args_dict]
              | _ => []
              end in
  match load_configfile c args_dict with
  | inl f => (inl f, log1)
  | inr configfile_dict =>
  match move_extra_headers args_dict with
  | inl f => (inl f, log1)
  | inr args_dict =>
  match item args_dict "config_filename" with
  | inl f => (inl f, log1)
  | inr _ =>
  let log2 := log1 ++ [Config._filter_sensitive_args configfile_dict] in
  match credentials c args_dict with
  | inl f => (inl f, log2)
  | inr creds_dict =>
  let config_dict := Config.config_dict configfile_dict creds_dict args_dict in
  let log3 := log2 ++ [Config._filter_sensitive_args config_dict] in
  match Config.check_required config_dict with
  | Config.SysExit status printed => (inl (SystemExit status printed), log3)
  | Config.Proceed =>
  match gen_params_from_config c config_dict with
  | None => (inl (CollaboratorRaised "gen_params_from_config"), log3)
  | Some stream_params =>
  let log4 := log3 ++ [Config._filter_sensitive_args stream_params] in
  match ResultStream c stream_params with
  | None => (inl (CollaboratorRaised "ResultStream"), log4)
  | Some rs => (inr (config_dict, open_stream c rs config_dict), log4)
  end end end end end end end.

Inductive ending : Type :=
| Done (all_tweets : list value)
| Stopped (f : failure).

Record run : Type := Run {
  ended : ending;
  after : world;
  logged : list (gmap string value)
}.

(** [stream = ...] *)
Definition set_stream (h : iterable) (w : world) : world :=
  World (stdout w) (files w) h (iter_calls w) (pulled w).

(** [main()] on the namespace argparse delivers. *)
Definition main (c : collaborators) (args_dict : gmap string value) (w : world)
  : run :=
  match prepare c args_dict with
  | (inl f, log) => Run (Stopped f) w log
  | (inr (config_dict, h), log) =>
      match main_tail config_dict (set_stream h w) with
      | (Ok all_tweets, w') => Run (Done all_tweets) w' log
      | (Raise e, w') => Run (Stopped (Uncaught e)) w' log
      end
  end.

(** ** Sample data *)

(** The line both writers print for an empty list. *)
Definition no_tweets : output := PrintLine "No tweets to save.".

(** The two records of the CSV example: [{"a": 1}, {"a": 2, "b": 3}]. *)
Definition two_records : list value :=
  [VDict [("a", VInt 1)]; VDict [("a", VInt 2); ("b", VInt 3)]].

(** A world before the stream is read: nothing printed, no file. *)
Definition start (h : iterable) : world := World [] ∅ h 0 [].

(** [--export json] with console streaming left on, as argparse
    delivers it after the merge. *)
Definition export_json_config : gmap string value :=
  {[ "print_stream" := VBool true;
     "export" := VStr "json";
     "output_filename" := VStr "tweets_output" ]}.

Definition one_tweet : value := VDict [("a", VInt 1)].

(** A record with text outside ASCII, a quote, a line break and a
    nested object. *)
Definition accented_tweet : value :=
  VDict [("id", VInt 1460323737035677698);
         ("text", VStr (String "034" ("café \ naïve" +:+ String "010" "")));
         ("lang", VNone);
         ("entities", VDict [("hashtags", VList [VStr "a"; VStr "b"]);
                             ("urls", VList [])]);
         ("retweeted", VBool false);
         ("delta", VInt (-3))].



(** [open] where the directory [out/] is missing. *)
Definition no_out_directory (filename : string) : result unit :=
  if String.prefix "out/" filename then Raise OSError else Ok tt.

(** A JSON text written with an apostrophe where the double quote
    stands. *)
Definition json_text (s : string) : list ascii :=
  map (λ c, if Ascii.eqb c "'" then Json.quote else c) (Json.chars s).

(** Collaborators for the examples: a configuration file with the rule
    and a [print_stream] of its own, credentials with the endpoint and
    a token, and a stream of the given records. *)
Definition sample_collaborators (records : list value) : collaborators :=
  {| RS := unit;
     read_config := λ _, Some {[ "pt_rule" := VStr "from:nasa";
                                 "print_stream" := VBool false ]};
     load_credentials := λ _ _ _ _, Some {[ "endpoint" := VStr "https://api.example";
                                            "bearer_token" := VStr "secret" ]};
     gen_params_from_config := λ config_dict, Some config_dict;
     ResultStream := λ _, Some tt;
     rs_stream := λ _, Generator records;
     write_result_stream := λ _ _ _, Generator records |}.

(** The command line [--config-file search.yaml]. *)
Definition with_config_file : list Argparse.occurrence :=
  [Argparse.Occurrence "--config-file" (Some (VStr "search.yaml"))].

(** * Properties *)

(** ** Configuration: null filter, merge, required keys, redaction *)

Section ConfigFacts.
Import Config.
Implicit Types (d file creds cli : gmap string value) (k : string) (v : value).

Lemma dict_filter_lookup d k :
  dict_filter d !! k = match d !! k with
                       | Some v => if is_none v then None else Some v
                       | None => None
                       end.
Proof.
  unfold dict_filter. destruct (d !! k) as [v|] eqn:E.
  - destruct (is_none v) eqn:Hn.
    + apply map_lookup_filter_None. right. intros x Hx. simpl.
      rewrite E in Hx. injection Hx as <-. rewrite Hn. discriminate.
    + apply map_lookup_filter_Some. simpl. auto.
  - apply map_lookup_filter_None. left. exact E.
Qed.

Lemma dict_filter_present d : present_only (dict_filter d).
Proof.
  intros k v Hk. rewrite dict_filter_lookup in Hk.
  destruct (d !! k) as [x|]; [|discriminate].
  destruct (is_none x) eqn:Hn; [discriminate|]. congruence.
Qed.

Lemma dict_filter_id d : present_only d → dict_filter d = d.
Proof.
  intros Hp. apply map_eq. intros k. rewrite dict_filter_lookup.
  destruct (d !! k) as [v|] eqn:E; [|reflexivity].
  rewrite (Hp k v E). reflexivity.
Qed.

Lemma dict_update_lookup d1 d2 k :
  dict_update d1 d2 !! k = match d2 !! k with
                           | Some v => Some v
                           | None => d1 !! k
                           end.
Proof.
  unfold dict_update. rewrite lookup_union.
  destruct (d2 !! k), (d1 !! k); reflexivity.
Qed.

Lemma merge_dicts_lookup d1 d2 d3 k :
  merge_dicts d1 d2 d3 !! k =
  match d3 !! k with
  | Some v => Some v
  | None => match d2 !! k with
            | Some v => Some v
            | None => d1 !! k
            end
  end.
Proof. unfold merge_dicts. rewrite !dict_update_lookup. reflexivity. Qed.

Lemma merge_dicts_dom d1 d2 d3 :
  dom (merge_dicts d1 d2 d3) = dom d1 ∪ dom d2 ∪ dom d3.
Proof.
  unfold merge_dicts, dict_update. rewrite !dom_union_L. set_solver.
Qed.

Lemma config_dict_present file creds cli :
  present_only (config_dict file creds cli).
Proof.
  intros k v Hk. unfold config_dict in Hk. rewrite merge_dicts_lookup in Hk.
  destruct (dict_filter cli !! k) as [x|] eqn:E3.
  { injection Hk as <-. exact (dict_filter_present cli k x E3). }
  destruct (dict_filter creds !! k) as [x|] eqn:E2.
  { injection Hk as <-. exact (dict_filter_present creds k x E2). }
  exact (dict_filter_present file k v Hk).
Qed.

(** The size test of line 225 is a subset test. *)
Lemma short_of_required (X : gset string) :
  (size (X ∩ REQUIRED_KEYS) < size REQUIRED_KEYS)%nat ↔
  ∃ k, k ∈ REQUIRED_KEYS ∧ k ∉ X.
Proof.
  split.
  - intros Hlt.
    destruct (decide ("pt_rule" ∈ X)) as [H1|H1];
      [|exists "pt_rule"; split; [unfold REQUIRED_KEYS; set_solver | exact H1]].
    destruct (decide ("endpoint" ∈ X)) as [H2|H2];
      [|exists "endpoint"; split; [unfold REQUIRED_KEYS; set_solver | exact H2]].
    replace (X ∩ REQUIRED_KEYS) with REQUIRED_KEYS in Hlt
      by (unfold REQUIRED_KEYS; set_solver).
    lia.
  - intros (k & Hin & Hout). apply subset_size. split; [set_solver|].
    intros Hsub. apply Hout. specialize (Hsub k Hin). set_solver.
Qed.

End ConfigFacts.

Section ConfigClaims.
Import Config.
Implicit Types (d file creds cli : gmap string value) (k : string) (v : value).

(** C4. On a merged configuration without null values, the check of the
    required keys fails exactly when some member of [REQUIRED_KEYS] is
    not among its keys; when it fails, the set it prints is
    [REQUIRED_KEYS] minus the configuration's keys and the exit status
    is not zero. *)
Theorem check_required_missing_keys (cfg : gmap string value) :
  present_only cfg →
  ((∃ status printed, check_required cfg = SysExit status printed) ↔
   (∃ k, k ∈ REQUIRED_KEYS ∧ k ∉ dom cfg)) ∧
  (∀ status printed,
     check_required cfg = SysExit status printed →
     printed = REQUIRED_KEYS ∖ dom cfg ∧ status ≠ 0).
Proof.
  intros Hp. unfold check_required. rewrite (dict_filter_id cfg Hp).
  destruct (decide (size (dom cfg ∩ REQUIRED_KEYS) < size REQUIRED_KEYS)%nat)
    as [Hlt|Hge].
  - split.
    + split; [intros _; apply short_of_required, Hlt | intros _; eauto].
    + intros status printed [= <- <-]. split; [reflexivity | discriminate].
  - split.
    + split; [intros (? & ? & [=]) |].
      intros Hk. exfalso. apply Hge, short_of_required, Hk.
    + intros ? ? [=].
Qed.

Lemma check_required_missing_keys_witness :
  let cfg : gmap string value := {[ "pt_rule" := VStr "from:nasa" ]} in
  ((∃ status printed, check_required cfg = SysExit status printed) ↔
   (∃ k, k ∈ REQUIRED_KEYS ∧ k ∉ dom cfg)) ∧
  (∀ status printed,
     check_required cfg = SysExit status printed →
     printed = REQUIRED_KEYS ∖ dom cfg ∧ status ≠ 0).
Proof.
  intros cfg. apply (check_required_missing_keys cfg).
  unfold present_only, cfg. apply map_Forall_singleton. reflexivity.
Defined.

(** C5. A key that all three sources carry with a non-null value has,
    in the merged configuration, the value of the command line
    arguments. *)
Theorem config_dict_cli_wins file creds cli k vf vc va :
  file !! k = Some vf → is_none vf = false →
  creds !! k = Some vc → is_none vc = false →
  cli !! k = Some va → is_none va = false →
  config_dict file creds cli !! k = Some va.
Proof.
  intros _ _ _ _ Ha Hna. unfold config_dict.
  rewrite merge_dicts_lookup, dict_filter_lookup, Ha, Hna. reflexivity.
Qed.

Lemma config_dict_cli_wins_witness :
  config_dict {[ "endpoint" := VStr "file" ]} {[ "endpoint" := VStr "creds" ]}
              {[ "endpoint" := VStr "cli" ]} !! "endpoint" = Some (VStr "cli").
Proof.
  apply (config_dict_cli_wins _ _ _ "endpoint" (VStr "file") (VStr "creds"));
    reflexivity.
Defined.

(** C6, as stated: a key that is null on the command line and non-null
    in the configuration file would always get the file's value.  The
    credentials stand between the two: when they carry the key, their
    value is the one the merge keeps. *)
Lemma config_dict_file_value_counterexample :
  ¬ (∀ file creds cli k vf,
       cli !! k = Some VNone →
       file !! k = Some vf → is_none vf = false →
       config_dict file creds cli !! k = Some vf).
Proof.
  intros H.
  specialize (H {[ "endpoint" := VStr "file" ]} {[ "endpoint" := VStr "creds" ]}
                {[ "endpoint" := VNone ]} "endpoint" (VStr "file")
                eq_refl eq_refl eq_refl).
  vm_compute in H. discriminate H.
Qed.

(** C6, amended. A key that is null on the command line, null or absent
    in the credentials and non-null in the configuration file has, in
    the merged configuration, the file's value. *)
Theorem config_dict_null_no_contribution file creds cli k vf :
  cli !! k = Some VNone →
  (creds !! k = None ∨ creds !! k = Some VNone) →
  file !! k = Some vf → is_none vf = false →
  config_dict file creds cli !! k = Some vf.
Proof.
  intros Ha Hc Hf Hnf. unfold config_dict.
  rewrite merge_dicts_lookup, !dict_filter_lookup, Ha, Hf, Hnf. simpl.
  destruct Hc as [-> | ->]; reflexivity.
Qed.

Lemma config_dict_null_no_contribution_witness :
  config_dict {[ "endpoint" := VStr "file" ]} ∅
              {[ "endpoint" := VNone ]} !! "endpoint" = Some (VStr "file").
Proof.
  apply (config_dict_null_no_contribution _ _ _ "endpoint" (VStr "file"));
    [reflexivity | left; reflexivity | reflexivity | reflexivity].
Defined.

(** C7. The redacted copy has none of the four sensitive keys, and every
    other key with the value it had. *)
Theorem filter_sensitive_lookup d k :
  _filter_sensitive_args d !! k =
  if bool_decide (k ∈ ["password"; "consumer_key"; "consumer_secret";
                       "bearer_token"])
  then None else d !! k.
Proof.
  unfold _filter_sensitive_args, sens_args. case_bool_decide as Hk.
  - apply map_lookup_filter_None. right. intros v _ Hn. exact (Hn Hk).
  - destruct (d !! k) as [v|] eqn:E.
    + apply map_lookup_filter_Some. split; [exact E | exact Hk].
    + apply map_lookup_filter_None. left. exact E.
Qed.

(** C10. When the three sources have no key in common and no null
    value, the keys of the merged configuration are the keys of the
    three together, and each key has the value its source gave it. *)
Theorem config_dict_disjoint_union file creds cli :
  present_only file → present_only creds → present_only cli →
  dom file ## dom creds → dom file ## dom cli → dom creds ## dom cli →
  dom (config_dict file creds cli) = dom file ∪ dom creds ∪ dom cli ∧
  ∀ k v, (file !! k = Some v ∨ creds !! k = Some v ∨ cli !! k = Some v) →
         config_dict file creds cli !! k = Some v.
Proof.
  intros Hf Hc Ha Dfc Dfa Dca. unfold config_dict.
  rewrite (dict_filter_id _ Hf), (dict_filter_id _ Hc), (dict_filter_id _ Ha).
  split; [apply merge_dicts_dom|].
  intros k v Hk. rewrite merge_dicts_lookup.
  destruct Hk as [Hk | [Hk | Hk]].
  - assert (cli !! k = None) as ->.
    { apply not_elem_of_dom. intros Hin. apply (Dfa k); [|exact Hin].
      apply elem_of_dom. eauto. }
    assert (creds !! k = None) as ->.
    { apply not_elem_of_dom. intros Hin. apply (Dfc k); [|exact Hin].
      apply elem_of_dom. eauto. }
    exact Hk.
  - assert (cli !! k = None) as ->.
    { apply not_elem_of_dom. intros Hin. apply (Dca k); [|exact Hin].
      apply elem_of_dom. eauto. }
    rewrite Hk. reflexivity.
  - rewrite Hk. reflexivity.
Qed.

Lemma config_dict_disjoint_union_witness :
  let file : gmap string value := {[ "pt_rule" := VStr "foo" ]} in
  let creds : gmap string value := {[ "endpoint" := VStr "bar" ]} in
  let cli : gmap string value := {[ "print_stream" := VBool true ]} in
  dom (config_dict file creds cli) = dom file ∪ dom creds ∪ dom cli ∧
  ∀ k v, (file !! k = Some v ∨ creds !! k = Some v ∨ cli !! k = Some v) →
         config_dict file creds cli !! k = Some v.
Proof.
  intros file creds cli.
  apply (config_dict_disjoint_union file creds cli);
    try (apply map_Forall_singleton; reflexivity);
    unfold file, creds, cli; rewrite !dom_singleton_L;
    apply disjoint_singleton_l, not_elem_of_singleton; discriminate.
Defined.

End ConfigClaims.

(** ** The export writers *)

Section ExportFacts.
Implicit Types (w : world) (tweets : list value).

Lemma save_to_csv_empty filename w :
  save_to_csv [] filename w =
  (Ok tt, World (stdout w ++ [no_tweets]) (files w) (stream w)
                (iter_calls w) (pulled w)).
Proof. reflexivity. Qed.

Lemma save_to_json_empty filename w :
  save_to_json [] filename w =
  (Ok tt, World (stdout w ++ [no_tweets]) (files w) (stream w)
                (iter_calls w) (pulled w)).
Proof. reflexivity. Qed.

(** C8. With an empty record list, whichever of the three formats is
    asked for, the selected writers end normally, leave every file as
    it was (none is created) and print "No tweets to save." once per
    writer. *)
Theorem export_empty_writes_nothing (export_type base : string) w :
  export_type ∈ ["csv"; "json"; "both"] →
  ∃ w', export_selected (VStr export_type) (VStr base) [] w = (Ok tt, w') ∧
        files w' = files w ∧
        ∃ n, (1 ≤ n)%nat ∧ stdout w' = stdout w ++ repeat no_tweets n.
Proof.
  intros Hin. rewrite !elem_of_cons in Hin.
  destruct Hin as [-> | [-> | [-> | Hin]]]; [| | | by apply elem_of_nil in Hin].
  - eexists. split; [reflexivity|]. split; [reflexivity|].
    exists 1%nat. split; [lia | reflexivity].
  - eexists. split; [reflexivity|]. split; [reflexivity|].
    exists 1%nat. split; [lia | reflexivity].
  - eexists. split; [reflexivity|]. split; [reflexivity|].
    exists 2%nat. split; [lia|]. simpl. rewrite <- app_assoc. reflexivity.
Qed.

Lemma export_empty_writes_nothing_witness :
  let w := World [] ∅ (Generator []) 0 [] in
  ∃ w', export_selected (VStr "both") (VStr "x") [] w = (Ok tt, w') ∧
        files w' = files w ∧
        ∃ n, (1 ≤ n)%nat ∧ stdout w' = stdout w ++ repeat no_tweets n.
Proof.
  intros w. apply (export_empty_writes_nothing "both" "x" w).
  rewrite !elem_of_cons. right. right. left. reflexivity.
Defined.

Lemma export_csv_two_records w :
  export_selected (VStr "csv") (VStr "x") two_records w =
  (Raise (ValueError ["b"]),
   World (stdout w)
         (<["x.csv" := CsvRows [[VStr "a"]; [VInt 1]]]> (files w))
         (stream w) (iter_calls w) (pulled w)).
Proof.
  unfold export_selected, bind, fstring, ret, save_to_csv, lift, open_w,
    Csv.writeheader, Csv.writerows, Csv.writerow, bind, lift, ret. simpl.
  rewrite !lookup_insert_eq, !insert_insert_eq. simpl. reflexivity.
Qed.




(** C3, as stated: the file would hold the header and a row for each of
    the two records.  The writer refuses the second record, whose key
    [b] is not a field name, so no such file comes out. *)
Lemma export_csv_two_rows_counterexample :
  let w := World [] ∅ (Generator []) 0 [] in
  ¬ (∃ row1 row2,
       files (export_selected (VStr "csv") (VStr "x") two_records w).2 !! "x.csv"
       = Some (CsvRows [[VStr "a"]; row1; row2])).
Proof.
  intros w (row1 & row2 & H). rewrite export_csv_two_records in H.
  simpl in H. rewrite lookup_insert_eq in H. discriminate H.
Qed.

(** C3, amended. The export creates [x.csv] with the header row [a]
    alone and the row of the first record; at the second record the
    writer raises [ValueError] for the key [b], and that record gets no
    row. *)
Theorem export_csv_header_from_first_record w :
  ∃ w', export_selected (VStr "csv") (VStr "x") two_records w
        = (Raise (ValueError ["b"]), w') ∧
        files w' !! "x.csv" = Some (CsvRows [[VStr "a"]; [VInt 1]]) ∧
        stdout w' = stdout w.
Proof.
  eexists. split; [apply export_csv_two_records|].
  split; [apply lookup_insert_eq | reflexivity].
Qed.

End ExportFacts.

(** ** The two loops over the stream *)

Section StreamFacts.
Implicit Types (w : world) (l : list value).

Lemma loop_echo_generator l : ∀ w,
  stream w = Generator l →
  loop true l echo tt w =
  (Ok tt, World (stdout w ++ map PrintJson l) (files w) (Generator [])
                (iter_calls w) (pulled w ++ l)).
Proof.
  induction l as [|x l IH]; intros [o f s i p] Hs; simpl in *.
  - subst s. unfold ret. rewrite !app_nil_r. reflexivity.
  - unfold bind at 1. unfold take at 1. simpl.
    unfold bind at 1. unfold echo at 1, print at 1. simpl.
    rewrite IH by reflexivity. simpl. rewrite <- !app_assoc. reflexivity.
Qed.

(** A loop over a generator takes all of it. *)
Lemma for_in_echo_generator l w :
  stream w = Generator l →
  for_in echo tt w =
  (Ok tt, World (stdout w ++ map PrintJson l) (files w) (Generator [])
                (S (iter_calls w)) (pulled w ++ l)).
Proof.
  intros Hs. unfold for_in. rewrite Hs.
  rewrite (loop_echo_generator l) by reflexivity. reflexivity.
Qed.

(** A loop over a generator that has been read finds nothing. *)
Lemma for_in_exhausted {A} (body : A → value → M A) (acc : A) w :
  stream w = Generator [] →
  for_in body acc w =
  (Ok acc, World (stdout w) (files w) (Generator []) (S (iter_calls w)) (pulled w)).
Proof. intros Hs. unfold for_in. rewrite Hs. reflexivity. Qed.

Lemma bind_ok {A B} (m : M A) (k : A → M B) w a w' :
  m w = (Ok a, w') → bind m k w = k a w'.
Proof. intros H. unfold bind. rewrite H. reflexivity. Qed.

(** What lines 245-265 come to on a generator: both loops run when the
    flag is true, the second over nothing, and the export is skipped. *)
Lemma main_tail_generator (cfg : gmap string value) w l ps :
  stream w = Generator l →
  cfg !! "print_stream" = Some ps →
  main_tail cfg w =
  (Ok [], if truthy ps
          then World (stdout w ++ map PrintJson l) (files w) (Generator [])
                     (S (S (iter_calls w))) (pulled w ++ l)
          else w).
Proof.
  intros Hs Hps. unfold main_tail, getitem. rewrite Hps.
  rewrite (bind_ok _ _ w ps w) by reflexivity.
  destruct (truthy ps) eqn:Ht.
  - rewrite (bind_ok _ _ w tt _ (for_in_echo_generator l w Hs)).
    erewrite bind_ok by reflexivity. rewrite Ht.
    erewrite bind_ok by (apply for_in_exhausted; reflexivity).
    simpl. rewrite andb_false_r. reflexivity.
  - rewrite (bind_ok _ _ w tt w) by reflexivity.
    erewrite bind_ok by reflexivity. rewrite Ht.
    erewrite bind_ok by reflexivity.
    simpl. rewrite andb_false_r. reflexivity.
Qed.

End StreamFacts.

Section StreamClaims.
Implicit Types (w : world) (l : list value).

(** C1. At [--export json] with console streaming on and a stream of
    one record, [main] starts two loops on the same handle: the first
    echoes the record, the second finds the generator exhausted, so the
    record is echoed but never appended and no file is written. *)
Theorem main_iterates_stream_twice :
  main_tail export_json_config (start (Generator [one_tweet])) =
  (Ok [], World [PrintJson one_tweet] ∅ (Generator []) 2 [one_tweet]).
Proof. vm_compute. reflexivity. Qed.

(** On a handle that can be read again the same run does collect and
    export, after a second echo: the empty list of the run above comes
    from the exhausted generator alone. *)
Lemma main_on_sequence :
  ∃ w', main_tail export_json_config (start (Sequence [one_tweet]))
        = (Ok [one_tweet], w') ∧
        iter_calls w' = 2%nat ∧
        pulled w' = [one_tweet; one_tweet] ∧
        files w' !! "tweets_output.json"
        = Some (JsonText (Json.dump (VList [one_tweet]))).
Proof.
  eexists. split; [vm_compute; reflexivity|].
  split; [reflexivity|]. split; [reflexivity|]. vm_compute. reflexivity.
Qed.

(** C2. When the handle is forward-only, whatever the configuration and
    however many records are pending, [all_tweets] is empty when the
    export step is reached and the run leaves the files as they were:
    no CSV and no JSON file is written. *)
Theorem forward_only_stream_never_exports (cfg : gmap string value) w :
  forward_only (stream w) →
  files (main_tail cfg w).2 = files w ∧
  ∀ all_tweets, (main_tail cfg w).1 = Ok all_tweets → all_tweets = [].
Proof.
  intros Hfw. destruct (stream w) as [l|l] eqn:Hs; [clear Hfw | destruct Hfw].
  destruct (cfg !! "print_stream") as [ps|] eqn:Hps.
  - rewrite (main_tail_generator cfg w l ps Hs Hps). simpl.
    split; [destruct (truthy ps); reflexivity|].
    intros ? [= <-]. reflexivity.
  - unfold main_tail, getitem. rewrite Hps. unfold bind, raise. simpl.
    split; [reflexivity | discriminate].
Qed.

Lemma forward_only_stream_never_exports_witness :
  let w := start (Generator [one_tweet; one_tweet]) in
  files (main_tail export_json_config w).2 = files w ∧
  ∀ all_tweets, (main_tail export_json_config w).1 = Ok all_tweets →
                all_tweets = [].
Proof.
  intros w. apply (forward_only_stream_never_exports export_json_config w).
  simpl. exact I.
Defined.

End StreamClaims.

(** ** JSON: reading back what was written *)

Module JsonFacts.
Import Json.
Local Open Scope char_scope.

Lemma skip_ws_indent level s : skip_ws (newline_indent level ++ s) = skip_ws s.
Proof.
  unfold newline_indent. simpl.
  induction (level + (level + 0))%nat as [|n IH]; simpl; [reflexivity | exact IH].
Qed.

(** *** Strings *)

Lemma scanstring_plain c r :
  Ascii.eqb c quote = false → Ascii.eqb c backslash = false →
  (N_of_ascii c <? 32)%N = false →
  scanstring (c :: r) = '(str, rest) ← scanstring r; Some (c :: str, rest).
Proof. intros H1 H2 H3. simpl. rewrite H1, H2, H3. reflexivity. Qed.

Lemma scanstring_short esc ch r :
  Ascii.eqb esc "u" = false → unescape esc = Some ch →
  scanstring (backslash :: esc :: r)
  = '(str, rest) ← scanstring r; Some (ch :: str, rest).
Proof. intros H1 H2. simpl. rewrite H1, H2. reflexivity. Qed.

Lemma scanstring_u x3 x2 x1 x0 uni ch r :
  decode_uXXXX x3 x2 x1 x0 = Some uni →
  is_high_surrogate uni = false → chr uni = Some ch →
  scanstring (backslash :: "u" :: x3 :: x2 :: x1 :: x0 :: r)
  = '(str, rest) ← scanstring r; Some (ch ++ str, rest).
Proof.
  intros H1 H2 H3.
  change (scanstring (backslash :: "u" :: x3 :: x2 :: x1 :: x0 :: r))
    with (uni ← decode_uXXXX x3 x2 x1 x0;
          if is_high_surrogate uni then
            match r with
            | e1 :: e2 :: y3 :: y2 :: y1 :: y0 :: r3 =>
                if Ascii.eqb e1 backslash && Ascii.eqb e2 "u" then
                  uni2 ← decode_uXXXX y3 y2 y1 y0;
                  if is_low_surrogate uni2 then
                    ch ← chr (65536 + (uni - 55296) * 1024 + (uni2 - 56320))%N;
                    '(str, rest) ← scanstring r3;
                    Some (ch ++ str, rest)
                  else
                    ch ← chr uni;
                    '(str, rest) ← scanstring r;
                    Some (ch ++ str, rest)
                else
                  ch ← chr uni;
                  '(str, rest) ← scanstring r;
                  Some (ch ++ str, rest)
            | _ =>
                ch ← chr uni;
                '(str, rest) ← scanstring r;
                Some (ch ++ str, rest)
            end
          else
            ch ← chr uni;
            '(str, rest) ← scanstring r;
            Some (ch ++ str, rest)).
  rewrite H1. simpl. rewrite H2, H3. reflexivity.
Qed.

(** The scanner undoes the escape of any one character. *)
Ltac scan_one_escape H :=
  match goal with
  | |- context [escape_char ?c] =>
      let e := eval vm_compute in (escape_char c) in
      change (escape_char c) with e
  end;
  cbn [app];
  first [ rewrite scanstring_plain by (vm_compute; reflexivity)
        | erewrite scanstring_short by (vm_compute; reflexivity)
        | erewrite scanstring_u by (vm_compute; reflexivity) ];
  rewrite H; reflexivity.

Lemma scanstring_escape c tl str rest :
  scanstring tl = Some (str, rest) →
  scanstring (escape_char c ++ tl) = Some (c :: str, rest).
Proof.
  intros H.
  destruct c as [[] [] [] [] [] [] [] []]; scan_one_escape H.
Qed.

Lemma scanstring_escaped cs rest :
  scanstring (flat_map escape_char cs ++ quote :: rest) = Some (cs, rest).
Proof.
  induction cs as [|c cs IH]; [reflexivity|].
  simpl. rewrite <- app_assoc. apply scanstring_escape, IH.
Qed.

Lemma scan_basestring s rest :
  scanstring (tl (encode_basestring s) ++ rest)
  = Some (list_ascii_of_string s, rest).
Proof.
  unfold encode_basestring, chars. simpl. rewrite <- app_assoc. simpl.
  apply scanstring_escaped.
Qed.

(** *** Numbers *)

Lemma delimited_not_digit rest :
  delimited rest → match rest with [] => True | c :: _ => digit_of c = None end.
Proof. destruct rest as [|c r]; [trivial|]. intros [-> | ->]; reflexivity. Qed.

Lemma delimited_not_float rest : delimited rest → float_follows rest = false.
Proof. destruct rest as [|c r]; [trivial|]. intros [-> | ->]; reflexivity. Qed.

Lemma scan_digits_uint d rest :
  match rest with [] => True | c :: _ => digit_of c = None end →
  scan_digits (uint_chars d ++ rest) = (d, rest).
Proof.
  intros Hrest.
  induction d as [|d IH|d IH|d IH|d IH|d IH|d IH|d IH|d IH|d IH|d IH];
    try (simpl; rewrite IH; reflexivity).
  simpl. destruct rest as [|c r]; [reflexivity|].
  simpl. rewrite Hrest. reflexivity.
Qed.

Lemma nzhead_not_D0 d d' : Decimal.nzhead d ≠ Decimal.D0 d'.
Proof. induction d; simpl; try discriminate. exact IHd. Qed.

(** [int.__repr__] of a positive number starts with a digit that is
    not zero. *)
Lemma pos_chars_head p :
  ∃ c r, uint_chars (Pos.to_uint p) = c :: r ∧ nonzero_digit c = true.
Proof.
  assert (Pos.to_uint p = Decimal.unorm (Pos.to_uint p)) as Hn.
  { rewrite <- (DecimalPos.Unsigned.to_of (Pos.to_uint p)).
    rewrite DecimalPos.Unsigned.of_to. reflexivity. }
  pose proof (DecimalPos.Unsigned.to_uint_nonzero p) as Hz.
  pose proof (nzhead_not_D0 (Pos.to_uint p)) as Hh.
  unfold Decimal.unorm in Hn.
  destruct (Decimal.nzhead (Pos.to_uint p)) as [|d|d|d|d|d|d|d|d|d|d] eqn:E;
    [ exfalso; apply Hz; exact Hn
    | exfalso; exact (Hh d eq_refl)
    | rewrite Hn; eexists _, _; split; reflexivity .. ].
Qed.

Lemma match_number_int z rest :
  delimited rest → match_number (encode_int z ++ rest) = Some (VInt z, rest).
Proof.
  intros Hd. pose proof (delimited_not_float rest Hd) as Hf.
  pose proof (delimited_not_digit rest Hd) as Hnd.
  destruct z as [|p|p].
  - unfold match_number. simpl. rewrite Hf. reflexivity.
  - unfold match_number, encode_int.
    destruct (pos_chars_head p) as (c & r & Hc & Hnz).
    pose proof (scan_digits_uint (Pos.to_uint p) rest Hnd) as Hs.
    rewrite Hc in Hs |- *. simpl app in *.
    apply andb_true_iff in Hnz as [Hdig Hz]. apply negb_true_iff in Hz.
    assert (Ascii.eqb c "-" = false) as Hm.
    { destruct (Ascii.eqb_spec c "-") as [-> |]; [discriminate Hdig | reflexivity]. }
    rewrite Hm, Hz, Hs.
    pose proof (DecimalPos.Unsigned.to_uint_nonnil p) as Hnil.
    destruct (Pos.to_uint p) eqn:E; [congruence | ..];
      rewrite Hf; rewrite <- E;
      change (N.of_uint (Pos.to_uint p)) with (Pos.of_uint (Pos.to_uint p));
      rewrite DecimalPos.Unsigned.of_to; reflexivity.
  - unfold match_number, encode_int.
    destruct (pos_chars_head p) as (c & r & Hc & Hnz).
    pose proof (scan_digits_uint (Pos.to_uint p) rest Hnd) as Hs.
    rewrite Hc in Hs |- *. simpl app in *.
    apply andb_true_iff in Hnz as [Hdig Hz]. apply negb_true_iff in Hz.
    change (Ascii.eqb "-" "-") with true. cbv iota.
    rewrite Hz, Hs.
    pose proof (DecimalPos.Unsigned.to_uint_nonnil p) as Hnil.
    destruct (Pos.to_uint p) eqn:E; [congruence | ..];
      rewrite Hf; rewrite <- E;
      change (N.of_uint (Pos.to_uint p)) with (Pos.of_uint (Pos.to_uint p));
      rewrite DecimalPos.Unsigned.of_to; reflexivity.
Qed.

Lemma encode_int_head z :
  ∃ c r, encode_int z = c :: r ∧ number_start c = true.
Proof.
  destruct z as [|p|p].
  - eexists _, _. split; reflexivity.
  - destruct (pos_chars_head p) as (c & r & Hc & Hnz).
    exists c, r. split; [exact Hc|].
    apply andb_true_iff in Hnz as [Hdig _]. unfold number_start.
    rewrite Hdig. reflexivity.
  - eexists _, _. split; reflexivity.
Qed.

(** [scan_once] hands a text that starts like a number to
    [match_number]. *)
Lemma scan_once_number fuel c r :
  number_start c = true →
  scan_once (S fuel) (c :: r) = match_number (c :: r).
Proof.
  intros H.
  destruct c as [[] [] [] [] [] [] [] []];
    try (vm_compute in H; discriminate H); reflexivity.
Qed.

Lemma number_start_not_ws c : number_start c = true → is_ws c = false.
Proof.
  intros H. unfold is_ws.
  destruct (Ascii.eqb_spec c " ") as [-> |]; [discriminate H|].
  destruct (Ascii.eqb_spec c "009") as [-> |]; [discriminate H|].
  destruct (Ascii.eqb_spec c "010") as [-> |]; [discriminate H|].
  destruct (Ascii.eqb_spec c "013") as [-> |]; [discriminate H|].
  reflexivity.
Qed.

Lemma number_start_not_closing c :
  number_start c = true → Ascii.eqb c "]" = false ∧ Ascii.eqb c "}" = false.
Proof.
  intros H.
  destruct (Ascii.eqb_spec c "]") as [-> |]; [discriminate H|].
  destruct (Ascii.eqb_spec c "}") as [-> |]; [discriminate H|].
  split; reflexivity.
Qed.

(** Every encoded value starts with a character that is neither white
    space nor a closing bracket. *)
Lemma encode_head level v :
  ∃ c r, encode level v = c :: r ∧ is_ws c = false ∧
         Ascii.eqb c "]" = false ∧ Ascii.eqb c "}" = false.
Proof.
  destruct v as [|[]|z|s|[|x xs]|[|[k x] xs]];
    try (eexists _, _; split; [reflexivity | repeat split; reflexivity]).
  destruct (encode_int_head z) as (c & r & Hc & Hs).
  exists c, r. split; [exact Hc|].
  split; [apply number_start_not_ws, Hs | apply number_start_not_closing, Hs].
Qed.

Lemma skip_ws_encode level v r :
  skip_ws (encode level v ++ r) = encode level v ++ r.
Proof.
  destruct (encode_head level v) as (c & tl & -> & Hws & _).
  simpl. rewrite Hws. reflexivity.
Qed.

Lemma encode_length_pos level v : (1 ≤ length (encode level v))%nat.
Proof.
  destruct (encode_head level v) as (c & tl & -> & _). simpl. lia.
Qed.

(** *** One step of each scanner *)

Local Arguments newline_indent : simpl never.
Local Arguments encode : simpl never.

Lemma scan_once_string fuel r :
  scan_once (S fuel) (quote :: r)
  = '(str, rest) ← scanstring r; Some (VStr (string_of_list_ascii str), rest).
Proof. reflexivity. Qed.

Lemma scan_once_array fuel r :
  scan_once (S fuel) ("[" :: r)
  = match skip_ws r with
    | c :: r1 =>
        if Ascii.eqb c "]" then Some (VList [], r1)
        else '(values, rest) ← elements fuel (c :: r1); Some (VList values, rest)
    | [] => None
    end.
Proof. reflexivity. Qed.

Lemma scan_once_object fuel r :
  scan_once (S fuel) ("{" :: r)
  = match skip_ws r with
    | c :: r1 =>
        if Ascii.eqb c "}" then Some (VDict [], r1)
        else '(pairs, rest) ← members fuel (c :: r1);
             Some (VDict (dict_of_pairs pairs), rest)
    | [] => None
    end.
Proof. reflexivity. Qed.

Lemma elements_step fuel s :
  elements (S fuel) s
  = '(v, r) ← scan_once fuel s;
    match skip_ws r with
    | c :: r1 =>
        if Ascii.eqb c "]" then Some ([v], r1)
        else if Ascii.eqb c "," then
          '(values, rest) ← elements fuel (skip_ws r1); Some (v :: values, rest)
        else None
    | [] => None
    end.
Proof. reflexivity. Qed.

Lemma members_step fuel r0 :
  members (S fuel) (quote :: r0)
  = '(key, r) ← scanstring r0;
    match skip_ws r with
    | c :: r1 =>
        if Ascii.eqb c ":" then
          '(v, r2) ← scan_once fuel (skip_ws r1);
          match skip_ws r2 with
          | c' :: r3 =>
              if Ascii.eqb c' "}" then Some ([(string_of_list_ascii key, v)], r3)
              else if Ascii.eqb c' "," then
                '(pairs, rest) ← members fuel (skip_ws r3);
                Some ((string_of_list_ascii key, v) :: pairs, rest)
              else None
          | [] => None
          end
        else None
    | [] => None
    end.
Proof. reflexivity. Qed.

(** *** Arrays *)

Lemma delimited_items level xs tail :
  delimited (flat_map (item_sep level) xs ++ newline_indent level ++ tail).
Proof. destruct xs as [|y ys]; simpl; [right | left]; reflexivity. Qed.

Lemma elements_encode level xs : ∀ x fuel rest,
  reads_back x → Forall reads_back xs →
  (length (encode (S level) x ++ flat_map (item_sep level) xs) < fuel)%nat →
  elements fuel (encode (S level) x ++ flat_map (item_sep level) xs ++
                 newline_indent level ++ "]" :: rest)
  = Some (x :: xs, rest).
Proof.
  induction xs as [|y ys IH]; intros x fuel rest Hx Hxs Hlen;
    (destruct fuel as [|fuel]; [lia|]); rewrite length_app in Hlen;
    rewrite elements_step;
    rewrite (Hx (S level) fuel) by (first [lia | apply delimited_items]);
    cbn [mbind option_bind flat_map app].
  - rewrite skip_ws_indent. reflexivity.
  - unfold item_sep at 1. cbn [app skip_ws is_ws Ascii.eqb Bool.eqb orb].
    rewrite <- !app_assoc, skip_ws_indent, skip_ws_encode.
    apply Forall_cons in Hxs as [Hy Hys].
    rewrite (IH y fuel rest Hy Hys); [reflexivity|].
    simpl in Hlen. rewrite !length_app in *. simpl in Hlen. lia.
Qed.

(** *** Objects *)

Lemma dict_set_fresh d k v :
  k ∉ map fst d → dict_set d k v = d ++ [(k, v)].
Proof.
  induction d as [|[k' x] d IH]; intros Hk; [reflexivity|].
  simpl in *. apply not_elem_of_cons in Hk as [Hne Hk].
  destruct (String.eqb_spec k' k) as [-> | _]; [congruence|].
  rewrite IH by exact Hk. reflexivity.
Qed.

Lemma fold_dict_set l : ∀ acc,
  NoDup (map fst (acc ++ l)) →
  fold_left (λ d kv, dict_set d kv.1 kv.2) l acc = acc ++ l.
Proof.
  induction l as [|[k v] l IH]; intros acc Hnd; simpl.
  - rewrite app_nil_r. reflexivity.
  - rewrite dict_set_fresh.
    + rewrite IH; rewrite <- app_assoc; [reflexivity | exact Hnd].
    + rewrite map_app in Hnd. simpl in Hnd.
      apply NoDup_app in Hnd as (_ & Hdis & _).
      intros Hin. apply (Hdis k Hin). left.
Qed.

(** A well-formed dictionary is what [dict] makes of its own items. *)
Lemma dict_of_pairs_id d : NoDup (map fst d) → dict_of_pairs d = d.
Proof. intros Hnd. unfold dict_of_pairs. rewrite fold_dict_set; [reflexivity | exact Hnd]. Qed.

Lemma delimited_members level xs tail :
  delimited (flat_map (member_sep level) xs ++ newline_indent level ++ tail).
Proof. destruct xs as [|y ys]; simpl; [right | left]; reflexivity. Qed.

Lemma members_encode level xs : ∀ k x fuel rest,
  reads_back x → Forall (λ kv, reads_back kv.2) xs →
  (length (encode_basestring k ++ chars ": " ++ encode (S level) x ++
           flat_map (member_sep level) xs) < fuel)%nat →
  members fuel (encode_basestring k ++ chars ": " ++ encode (S level) x ++
                flat_map (member_sep level) xs ++
                newline_indent level ++ "}" :: rest)
  = Some ((k, x) :: xs, rest).
Proof.
  induction xs as [|[k' y] ys IH]; intros k x fuel rest Hx Hxs Hlen;
    (destruct fuel as [|fuel]; [lia|]);
    rewrite !length_app in Hlen; cbn [length chars list_ascii_of_string] in Hlen;
    unfold encode_basestring at 1; cbn [app];
    rewrite members_step, <- app_assoc; cbn [app];
    rewrite scanstring_escaped;
    cbn [mbind option_bind chars list_ascii_of_string app skip_ws is_ws
         Ascii.eqb Bool.eqb orb];
    rewrite skip_ws_encode;
    rewrite (Hx (S level) fuel) by (first [lia | apply delimited_members]);
    cbn [mbind option_bind flat_map app];
    unfold chars; rewrite string_of_list_ascii_of_string.
  - rewrite skip_ws_indent. reflexivity.
  - unfold member_sep at 1. cbn [app skip_ws is_ws Ascii.eqb Bool.eqb orb fst snd].
    rewrite <- !app_assoc, skip_ws_indent.
    apply Forall_cons in Hxs as [Hy Hys]. simpl in Hy.
    assert (skip_ws (encode_basestring k' ++ chars ": " ++ encode (S level) y ++
                     flat_map (member_sep level) ys ++
                     newline_indent level ++ "}" :: rest)
            = encode_basestring k' ++ chars ": " ++ encode (S level) y ++
              flat_map (member_sep level) ys ++
              newline_indent level ++ "}" :: rest) as Hsk by reflexivity.
    fold (chars ": "). rewrite Hsk.
    rewrite (IH k' y fuel rest Hy Hys); [reflexivity|].
    cbn [flat_map] in Hlen. unfold member_sep at 1 in Hlen.
    cbn [length fst snd] in Hlen. rewrite !length_app in *.
    cbn [length chars list_ascii_of_string] in *.
    rewrite !length_app in Hlen. cbn [length] in Hlen. lia.
Qed.

(** *** Every well-formed value *)

Lemma encode_list_cons level x xs :
  encode level (VList (x :: xs))
  = "[" :: newline_indent (S level) ++ encode (S level) x ++
    flat_map (item_sep level) xs ++ newline_indent level ++ ["]"].
Proof. reflexivity. Qed.

Lemma encode_dict_cons level k x xs :
  encode level (VDict ((k, x) :: xs))
  = "{" :: newline_indent (S level) ++
    encode_basestring k ++ chars ": " ++ encode (S level) x ++
    flat_map (member_sep level) xs ++ newline_indent level ++ ["}"].
Proof. reflexivity. Qed.

Lemma well_formed_list l :
  well_formed (VList l) = true → Forall (λ x, well_formed x = true) l.
Proof.
  simpl. induction l as [|x l IH]; intros H; [constructor|].
  simpl in H. apply andb_true_iff in H as [Hx Hl].
  constructor; [exact Hx | exact (IH Hl)].
Qed.

Lemma well_formed_dict d :
  well_formed (VDict d) = true →
  NoDup (map fst d) ∧ Forall (λ kv, well_formed kv.2 = true) d.
Proof.
  intros H. simpl in H. apply andb_true_iff in H as [Hnd Hall].
  split; [apply bool_decide_eq_true in Hnd; exact Hnd|]. clear Hnd.
  induction d as [|[k x] d IH]; [constructor|].
  simpl in Hall. apply andb_true_iff in Hall as [Hx Hd].
  constructor; [exact Hx | exact (IH Hd)].
Qed.

Lemma encode_reads_back v : well_formed v = true → reads_back v.
Proof.
  induction v as [|b|z|s|l IH|d IH] using value_ind; intros Hwf level fuel rest Hlen Hd.
  - destruct fuel as [|fuel]; [simpl in Hlen; lia | reflexivity].
  - destruct fuel as [|fuel]; [destruct b; simpl in Hlen; lia |].
    destruct b; reflexivity.
  - destruct (encode_int_head z) as (c & r & Hc & Hs).
    pose proof (match_number_int z rest Hd) as Hm.
    change (encode level (VInt z)) with (encode_int z) in *.
    rewrite Hc in Hm, Hlen |- *. cbn [app] in *.
    destruct fuel as [|fuel]; [simpl in Hlen; lia|].
    rewrite scan_once_number by exact Hs. exact Hm.
  - change (encode level (VStr s)) with (encode_basestring s) in *.
    unfold encode_basestring in *. cbn [app] in *.
    destruct fuel as [|fuel]; [simpl in Hlen; lia|].
    rewrite scan_once_string, <- app_assoc. cbn [app].
    rewrite scanstring_escaped. cbn [mbind option_bind].
    unfold chars. rewrite string_of_list_ascii_of_string. reflexivity.
  - destruct l as [|x xs].
    { destruct fuel as [|fuel]; [simpl in Hlen; lia | reflexivity]. }
    apply well_formed_list in Hwf.
    assert (Forall reads_back (x :: xs)) as Hall.
    { apply Forall_forall. intros y Hy.
      apply (proj1 (Forall_forall _ _) IH y Hy), (proj1 (Forall_forall _ _) Hwf y Hy). }
    apply Forall_cons in Hall as [Hx Hxs].
    rewrite encode_list_cons in *. cbn [app length] in Hlen |- *.
    destruct fuel as [|fuel]; [lia|].
    rewrite scan_once_array, <- !app_assoc, skip_ws_indent, skip_ws_encode.
    assert (length (encode (S level) x ++ flat_map (item_sep level) xs) < fuel)%nat
      as Hfuel.
    { unfold newline_indent in Hlen. repeat rewrite length_app in Hlen.
      repeat rewrite length_app. cbn [length] in Hlen. lia. }
    pose proof (elements_encode level xs x fuel rest Hx Hxs Hfuel) as He.
    destruct (encode_head (S level) x) as (c & r & Hc & _ & Hcl & _).
    rewrite Hc in He |- *. cbn [app] in He |- *. rewrite Hcl, He. reflexivity.
  - destruct d as [|[k x] xs].
    { destruct fuel as [|fuel]; [simpl in Hlen; lia | reflexivity]. }
    apply well_formed_dict in Hwf as [Hnd Hwf].
    assert (Forall (λ kv, reads_back kv.2) ((k, x) :: xs)) as Hall.
    { apply Forall_forall. intros y Hy.
      apply (proj1 (Forall_forall _ _) IH y Hy), (proj1 (Forall_forall _ _) Hwf y Hy). }
    apply Forall_cons in Hall as [Hx Hxs]. simpl in Hx.
    rewrite encode_dict_cons in *. cbn [app length] in Hlen |- *.
    destruct fuel as [|fuel]; [lia|].
    rewrite scan_once_object, <- !app_assoc, skip_ws_indent.
    assert (length (encode_basestring k ++ chars ": " ++ encode (S level) x ++
                    flat_map (member_sep level) xs) < fuel)%nat as Hfuel.
    { unfold newline_indent in Hlen. repeat rewrite length_app in Hlen.
      repeat rewrite length_app. cbn [length] in Hlen. lia. }
    pose proof (members_encode level xs k x fuel rest Hx Hxs Hfuel) as He.
    unfold encode_basestring at 1 in He. unfold encode_basestring at 1.
    cbn [app skip_ws is_ws Ascii.eqb Bool.eqb orb quote] in He |- *.
    rewrite He. cbn [mbind option_bind].
    rewrite dict_of_pairs_id by exact Hnd. reflexivity.
Qed.

(** Reading back a whole text. *)
Lemma loads_dump v : well_formed v = true → loads (dump v) = Some v.
Proof.
  intros Hwf. unfold loads, dump.
  pose proof (skip_ws_encode 0 v []) as Hsk. rewrite app_nil_r in Hsk.
  rewrite Hsk.
  pose proof (encode_reads_back v Hwf 0%nat (S (length (encode 0 v))) []) as Hr.
  rewrite app_nil_r in Hr. rewrite Hr; [reflexivity | lia | exact I].
Qed.

End JsonFacts.

(** ** The JSON export *)

Section JsonExport.
Import Json.
Local Open Scope char_scope.

Lemma save_to_json_writes x xs filename w :
  save_to_json (x :: xs) filename w =
  (Ok tt, World (stdout w ++ [PrintSaved (length (x :: xs)) filename])
                (<[filename := JsonText (dump (VList (x :: xs)))]> (files w))
                (stream w) (iter_calls w) (pulled w)).
Proof.
  unfold save_to_json, bind, open_w, write, print. simpl.
  rewrite lookup_insert_eq, insert_insert_eq. reflexivity.
Qed.


(** *** The chunks of [iterencode] *)







(** The file cannot be opened: the exception of [open] is the outcome,
    and nothing is written or printed. *)
Lemma save_to_json_strict_unopened opening x xs filename w e :
  opening filename = Raise e →
  save_to_json_strict opening (x :: xs) filename w = (Raise e, w).
Proof. intros Ho. unfold save_to_json_strict, bind, lift. rewrite Ho. reflexivity. Qed.

(** The layout on a nested record, as a text: two spaces for each
    level, [", "] nowhere, [": "] after a key. *)
Lemma dump_layout_example :
  dump (VList [VDict [("a"%string, VList [VInt 1; VDict [("b"%string, VNone)]]);
                      ("c"%string, VStr "é")];
               VList []]) =
  json_text "[
  {
    'a': [
      1,
      {
        'b': null
      }
    ],
    'c': 'é'
  },
  []
]".
Proof. vm_compute. reflexivity. Qed.




End JsonExport.

(** * Further properties *)

(** ** The command line *)

Module ArgparseFacts.
Import Argparse.

Lemma find_argument_elem o a : find_argument o = Some a → a ∈ arguments.
Proof.
  unfold find_argument. intros H. apply List.find_some in H as [H _].
  apply list_elem_of_In. exact H.
Qed.

Lemma find_argument_string o a : find_argument o = Some a → option_string a = o.
Proof.
  unfold find_argument. intros H. apply List.find_some in H as [_ H].
  apply String.eqb_eq. exact H.
Qed.

Lemma dest_elem a : a ∈ arguments → dest a ∈ dests.
Proof.
  intros H. unfold dests. apply elem_of_list_to_set, list_elem_of_fmap.
  exists a. split; [reflexivity | exact H].
Qed.

(** A property of namespaces that the defaults have and every stored
    value keeps holds of every namespace [parse_args] returns. *)
Lemma take_invariant (I : gmap string value → Prop) :
  (∀ ns a arg v, I ns → a ∈ arguments → stored (act a) arg = Some v →
                 I (<[dest a := v]> ns)) →
  ∀ occs ns unrecognized ns',
    I ns → take ns unrecognized occs = Namespace ns' → I ns'.
Proof.
  intros Hstep. induction occs as [|[o arg] occs IH]; intros ns u ns' Hns H.
  - simpl in H. destruct u; [discriminate|]. injection H as <-. exact Hns.
  - simpl in H.
    destruct (String.eqb o "-h" || String.eqb o "--help");
      [destruct arg; discriminate|].
    destruct (find_argument o) as [a|] eqn:Ha; [|exact (IH _ _ _ Hns H)].
    destruct (stored (act a) arg) as [v|] eqn:Hv; [|discriminate].
    apply (IH _ _ _ (Hstep _ _ _ _ Hns (find_argument_elem _ _ Ha) Hv) H).
Qed.

Lemma defaults_dom : dom defaults = dests.
Proof.
  apply (bool_decide_eq_true_1 (dom defaults = dests)). vm_compute. reflexivity.
Qed.

Lemma namespace_dom occs ns :
  parse_args occs = Namespace ns → dom ns = dests.
Proof.
  apply (take_invariant (λ ns, dom ns = dests)); [|exact defaults_dom].
  intros ns0 a arg v Hdom Ha _. rewrite dom_insert_L, Hdom.
  pose proof (dest_elem a Ha) as Hin. revert Hin. generalize dests (dest a).
  intros D d Hin. apply set_eq. intros x. rewrite elem_of_union, elem_of_singleton.
  split; [intros [-> | Hx]; assumption | auto].
Qed.

(** X1. Whatever options are given, the namespace [parse_args] returns
    has the same attributes: one per [dest] of the argument table. *)
Theorem namespace_keys occs ns :
  parse_args occs = Namespace ns → dom ns = dests.
Proof. exact (namespace_dom occs ns). Qed.

Lemma namespace_keys_witness :
  dom (<["pt_rule" := VStr "from:nasa"]> defaults) = dests.
Proof.
  apply (namespace_keys [Occurrence "--filter-rule" (Some (VStr "from:nasa"))]).
  reflexivity.
Defined.

(** What holds of the default of a [dest] and of everything an argument
    can store there holds of that attribute in every namespace. *)
Lemma dest_invariant k (T : value → Prop) :
  (∃ v, defaults !! k = Some v ∧ T v) →
  (∀ a arg v, a ∈ arguments → dest a = k → stored (act a) arg = Some v → T v) →
  ∀ occs ns, parse_args occs = Namespace ns → ∃ v, ns !! k = Some v ∧ T v.
Proof.
  intros Hdef Hstore occs ns.
  apply (take_invariant (λ ns, ∃ v, ns !! k = Some v ∧ T v)); [|exact Hdef].
  intros ns0 a arg v IH Ha Hv.
  destruct (decide (dest a = k)) as [Hk | Hne].
  - exists v. rewrite <- Hk, lookup_insert_eq. split; [reflexivity|].
    exact (Hstore a arg v Ha Hk Hv).
  - rewrite lookup_insert_ne by exact Hne. exact IH.
Qed.

(** Goes through the argument table, keeping the arguments whose
    [dest] is the one at hand, and through what each can store. *)
Ltac each_argument Ha Hd Hv :=
  repeat (apply elem_of_cons in Ha as [-> | Ha]; [try discriminate Hd|]);
  try (apply elem_of_nil in Ha; destruct Ha);
  simpl in Hv;
  repeat match type of Hv with
         | context [match ?x with _ => _ end] => destruct x eqn:?; try discriminate Hv
         end;
  injection Hv as <-.

Lemma namespace_types occs ns :
  parse_args occs = Namespace ns →
  (∃ b, ns !! "print_stream" = Some (VBool b)) ∧
  (∃ b, ns !! "debug" = Some (VBool b)) ∧
  (∃ s, ns !! "output_filename" = Some (VStr s)) ∧
  (∃ v, ns !! "env_overwrite" = Some v ∧ is_none v = false) ∧
  (ns !! "export" = Some VNone ∨
   ∃ s, s ∈ ["csv"; "json"; "both"] ∧ ns !! "export" = Some (VStr s)) ∧
  (ns !! "account_type" = Some VNone ∨
   ∃ s, s ∈ ["premium"; "enterprise"] ∧ ns !! "account_type" = Some (VStr s)) ∧
  (∀ k, k ∈ ["max_results"; "max_pages"; "results_per_file"] →
        ns !! k = Some VNone ∨ ∃ z, ns !! k = Some (VInt z)).
Proof.
  intros H.
  assert (∃ v, ns !! "print_stream" = Some v ∧ ∃ b, v = VBool b)
    as (? & ? & ? & ->).
  { apply (dest_invariant "print_stream" (λ v, ∃ b, v = VBool b))
      with (occs := occs); [| |exact H].
    - exists (VBool true). split; [vm_compute; reflexivity | eauto].
    - intros a arg v Ha Hd Hv; each_argument Ha Hd Hv; eauto. }
  assert (∃ v, ns !! "debug" = Some v ∧ ∃ b, v = VBool b) as (? & ? & ? & ->).
  { apply (dest_invariant "debug" (λ v, ∃ b, v = VBool b))
      with (occs := occs); [| |exact H].
    - exists (VBool false). split; [vm_compute; reflexivity | eauto].
    - intros a arg v Ha Hd Hv; each_argument Ha Hd Hv; eauto. }
  assert (∃ v, ns !! "output_filename" = Some v ∧ ∃ s, v = VStr s)
    as (? & ? & ? & ->).
  { apply (dest_invariant "output_filename" (λ v, ∃ s, v = VStr s))
      with (occs := occs); [| |exact H].
    - exists (VStr "tweets_output"). split; [vm_compute; reflexivity | eauto].
    - intros a arg v Ha Hd Hv; each_argument Ha Hd Hv; eauto. }
  assert (∃ v, ns !! "env_overwrite" = Some v ∧ is_none v = false) as Henv.
  { apply (dest_invariant "env_overwrite" (λ v, is_none v = false))
      with (occs := occs); [| |exact H].
    - exists (VBool true). split; vm_compute; reflexivity.
    - intros a arg v Ha Hd Hv; each_argument Ha Hd Hv; reflexivity. }
  assert (∃ v, ns !! "export" = Some v ∧
               (v = VNone ∨ ∃ s, s ∈ ["csv"; "json"; "both"] ∧ v = VStr s))
    as (? & Hex & Hex').
  { apply (dest_invariant "export"
             (λ v, v = VNone ∨ ∃ s, s ∈ ["csv"; "json"; "both"] ∧ v = VStr s))
      with (occs := occs); [| |exact H].
    - exists VNone. split; [vm_compute; reflexivity | left; reflexivity].
    - intros a arg v Ha Hd Hv; each_argument Ha Hd Hv.
      right. eexists. split; [|reflexivity].
      eapply bool_decide_eq_true_1. eassumption. }
  assert (∃ v, ns !! "account_type" = Some v ∧
               (v = VNone ∨ ∃ s, s ∈ ["premium"; "enterprise"] ∧ v = VStr s))
    as (? & Hac & Hac').
  { apply (dest_invariant "account_type"
             (λ v, v = VNone ∨ ∃ s, s ∈ ["premium"; "enterprise"] ∧ v = VStr s))
      with (occs := occs); [| |exact H].
    - exists VNone. split; [vm_compute; reflexivity | left; reflexivity].
    - intros a arg v Ha Hd Hv; each_argument Ha Hd Hv.
      right. eexists. split; [|reflexivity].
      eapply bool_decide_eq_true_1. eassumption. }
  repeat split; eauto.
  - destruct Hex' as [-> | (s & Hs & ->)]; eauto.
  - destruct Hac' as [-> | (s & Hs & ->)]; eauto.
  - intros k Hk.
    assert (∃ v, ns !! k = Some v ∧ (v = VNone ∨ ∃ z, v = VInt z))
      as (? & -> & [-> | [z ->]]); eauto.
    repeat (apply elem_of_cons in Hk as [-> | Hk]);
      try (apply elem_of_nil in Hk; destruct Hk);
      (apply (dest_invariant _ (λ v, v = VNone ∨ ∃ z, v = VInt z))
         with (occs := occs); [| |exact H];
       [ exists VNone; split; [vm_compute; reflexivity | left; reflexivity]
       | intros a arg v Ha Hd Hv; each_argument Ha Hd Hv; eauto ]).
Qed.

(** X2. In every namespace [print_stream] and [debug] are booleans,
    [output_filename] is a string and [env_overwrite] is not [None];
    [export] and [account_type] are [None] or one of their choices, and
    the three counts are [None] or integers. *)
Theorem namespace_values occs ns :
  parse_args occs = Namespace ns →
  (∃ b, ns !! "print_stream" = Some (VBool b)) ∧
  (∃ b, ns !! "debug" = Some (VBool b)) ∧
  (∃ s, ns !! "output_filename" = Some (VStr s)) ∧
  (∃ v, ns !! "env_overwrite" = Some v ∧ is_none v = false) ∧
  (ns !! "export" = Some VNone ∨
   ∃ s, s ∈ ["csv"; "json"; "both"] ∧ ns !! "export" = Some (VStr s)) ∧
  (ns !! "account_type" = Some VNone ∨
   ∃ s, s ∈ ["premium"; "enterprise"] ∧ ns !! "account_type" = Some (VStr s)) ∧
  (∀ k, k ∈ ["max_results"; "max_pages"; "results_per_file"] →
        ns !! k = Some VNone ∨ ∃ z, ns !! k = Some (VInt z)).
Proof. exact (namespace_types occs ns). Qed.

Lemma namespace_values_witness :
  let ns := <["max_results" := VInt 10]> (<["print_stream" := VBool false]> defaults) in
  (∃ b, ns !! "print_stream" = Some (VBool b)) ∧
  (∃ b, ns !! "debug" = Some (VBool b)) ∧
  (∃ s, ns !! "output_filename" = Some (VStr s)) ∧
  (∃ v, ns !! "env_overwrite" = Some v ∧ is_none v = false) ∧
  (ns !! "export" = Some VNone ∨
   ∃ s, s ∈ ["csv"; "json"; "both"] ∧ ns !! "export" = Some (VStr s)) ∧
  (ns !! "account_type" = Some VNone ∨
   ∃ s, s ∈ ["premium"; "enterprise"] ∧ ns !! "account_type" = Some (VStr s)) ∧
  (∀ k, k ∈ ["max_results"; "max_pages"; "results_per_file"] →
        ns !! k = Some VNone ∨ ∃ z, ns !! k = Some (VInt z)).
Proof.
  intros ns.
  apply (namespace_values [Occurrence "--no-print-stream" None;
                           Occurrence "--max-results" (Some (VInt 10))]).
  reflexivity.
Defined.

Lemma namespace_has occs ns k :
  parse_args occs = Namespace ns → k ∈ dests → is_Some (ns !! k).
Proof.
  intros H Hk. apply elem_of_dom. rewrite (namespace_dom occs ns H). exact Hk.
Qed.

Lemma namespace_extra_headers occs ns :
  parse_args occs = Namespace ns →
  ns !! "extra_headers" = Some VNone ∨ ∃ s, ns !! "extra_headers" = Some (VStr s).
Proof.
  intros H.
  assert (∃ v, ns !! "extra_headers" = Some v ∧ (v = VNone ∨ ∃ s, v = VStr s))
    as (? & -> & [-> | [s ->]]); eauto.
  apply (dest_invariant "extra_headers" (λ v, v = VNone ∨ ∃ s, v = VStr s))
    with (occs := occs); [| |exact H].
  - exists VNone. split; [vm_compute; reflexivity | left; reflexivity].
  - intros a arg v Ha Hd Hv; each_argument Ha Hd Hv; eauto.
Qed.

Lemma dests_elem k :
  k ∈ ["credential_file"; "credential_yaml_key"; "env_overwrite";
       "config_filename"; "account_type"; "print_stream"; "debug";
       "output_filename"] →
  k ∈ dests.
Proof.
  intros Hk. repeat (apply elem_of_cons in Hk as [-> | Hk]);
    try (apply elem_of_nil in Hk; destruct Hk);
    apply (bool_decide_eq_true_1 (_ ∈ dests)); vm_compute; reflexivity.
Qed.

Lemma sensitive_is_no_dest k : k ∈ Config.sens_args → k ∉ dests.
Proof.
  intros Hk. repeat (apply elem_of_cons in Hk as [-> | Hk]);
    try (apply elem_of_nil in Hk; destruct Hk);
    apply (bool_decide_eq_true_1 (_ ∉ dests)); vm_compute; reflexivity.
Qed.

Lemma help_is_no_argument o a :
  find_argument o = Some a → String.eqb o "-h" || String.eqb o "--help" = false.
Proof.
  intros H.
  destruct (String.eqb_spec o "-h") as [-> |]; [vm_compute in H; discriminate H|].
  destruct (String.eqb_spec o "--help") as [-> |]; [vm_compute in H; discriminate H|].
  reflexivity.
Qed.

Lemma take_untouched d occs : ∀ ns unrecognized ns',
  (∀ o arg a, Occurrence o arg ∈ occs → find_argument o = Some a → dest a ≠ d) →
  take ns unrecognized occs = Namespace ns' → ns' !! d = ns !! d.
Proof.
  induction occs as [|[o arg] occs IH]; intros ns u ns' Hno H; simpl in H.
  - destruct u; [discriminate|]. injection H as <-. reflexivity.
  - destruct (String.eqb o "-h" || String.eqb o "--help");
      [destruct arg; discriminate|].
    assert (∀ o' arg' a', Occurrence o' arg' ∈ occs →
                          find_argument o' = Some a' → dest a' ≠ d) as Hno'.
    { intros o' arg' a' Hin. apply (Hno o' arg' a'). right. exact Hin. }
    destruct (find_argument o) as [a|] eqn:Ha; [|exact (IH _ _ _ Hno' H)].
    destruct (stored (act a) arg) as [v|]; [|discriminate].
    rewrite (IH _ _ _ Hno' H). apply lookup_insert_ne.
    apply (Hno o arg a); [left | exact Ha].
Qed.

(** X3. An option that is not given leaves its attribute at the
    default of the argument table. *)
Theorem absent_option_keeps_default d occs ns :
  (∀ o arg a, Occurrence o arg ∈ occs → find_argument o = Some a → dest a ≠ d) →
  parse_args occs = Namespace ns →
  ns !! d = defaults !! d.
Proof. intros Hno H. exact (take_untouched d occs _ _ _ Hno H). Qed.

Lemma absent_option_keeps_default_witness :
  (<["debug" := VBool true]> defaults : gmap string value) !! "pt_rule"
  = defaults !! "pt_rule".
Proof.
  apply (absent_option_keeps_default "pt_rule" [Occurrence "--debug" None]);
    [|reflexivity].
  intros o arg a Hin Ha. apply list_elem_of_singleton in Hin. injection Hin as -> ->.
  vm_compute in Ha. injection Ha as <-. discriminate.
Defined.

(** X4. The last occurrence that names an attribute decides it: the
    attribute holds what that occurrence stores, whatever came before
    it on the command line. *)
Theorem last_occurrence_decides pre o arg post a ns :
  find_argument o = Some a →
  (∀ o' arg' a', Occurrence o' arg' ∈ post →
                 find_argument o' = Some a' → dest a' ≠ dest a) →
  parse_args (pre ++ Occurrence o arg :: post) = Namespace ns →
  ∃ v, stored (act a) arg = Some v ∧ ns !! dest a = Some v.
Proof.
  intros Ha Hpost. unfold parse_args. generalize defaults, false.
  induction pre as [|[o' arg'] pre IH]; intros ns0 u H; simpl in H.
  - rewrite (help_is_no_argument o a Ha), Ha in H.
    destruct (stored (act a) arg) as [v|]; [|discriminate].
    exists v. split; [reflexivity|].
    rewrite (take_untouched (dest a) post _ _ _ Hpost H). apply lookup_insert_eq.
  - destruct (String.eqb o' "-h" || String.eqb o' "--help");
      [destruct arg'; discriminate|].
    destruct (find_argument o') as [a'|]; [|exact (IH _ _ H)].
    destruct (stored (act a') arg') as [v'|]; [|discriminate].
    exact (IH _ _ H).
Qed.

Lemma last_occurrence_decides_witness :
  ∃ v, stored StoreFalse None = Some v ∧
       (<["print_stream" := VBool false]>
          (<["print_stream" := VBool true]> defaults) : gmap string value)
         !! "print_stream" = Some v.
Proof.
  apply (last_occurrence_decides [Occurrence "--print-stream" None]
           "--no-print-stream" None []
           (Argument "--no-print-stream" "print_stream" (VBool true) StoreFalse)).
  - reflexivity.
  - intros o' arg' a' Hin. apply elem_of_nil in Hin. destruct Hin.
  - reflexivity.
Defined.

End ArgparseFacts.

(** ** Configuration, once more *)

Section MoreConfigFacts.
Import Config.
Implicit Types (d cfg file creds cli : gmap string value) (k : string).

Lemma dict_filter_dom d k :
  k ∈ dom (dict_filter d) ↔ ∃ v, d !! k = Some v ∧ is_none v = false.
Proof.
  rewrite elem_of_dom, dict_filter_lookup. unfold is_Some.
  destruct (d !! k) as [v|]; [destruct (is_none v) eqn:Hn|].
  - split; [intros [? [=]] | intros (x & [= <-] & Hx); congruence].
  - split; [intros _; eauto | eauto].
  - split; [intros [? [=]] | intros (x & [=] & _)].
Qed.

Lemma check_required_cases cfg :
  (check_required cfg = Proceed ↔
   ∀ k, k ∈ REQUIRED_KEYS → ∃ v, cfg !! k = Some v ∧ is_none v = false) ∧
  (∀ status printed,
     check_required cfg = SysExit status printed →
     status = 1 ∧
     ∀ k, k ∈ printed ↔
          k ∈ REQUIRED_KEYS ∧ (cfg !! k = None ∨ cfg !! k = Some VNone)).
Proof.
  unfold check_required.
  destruct (decide (size (dom (dict_filter cfg) ∩ REQUIRED_KEYS)
                    < size REQUIRED_KEYS)%nat) as [Hlt|Hge].
  - split.
    + split; [discriminate|]. intros Hall. exfalso.
      apply short_of_required in Hlt as (k & Hk & Hout).
      apply Hout, dict_filter_dom, Hall, Hk.
    + intros status printed [= <- <-]. split; [reflexivity|].
      intros k. rewrite elem_of_difference, dict_filter_dom.
      split; intros [Hk Hmiss]; (split; [exact Hk|]).
      * destruct (cfg !! k) as [[]|]; eauto; exfalso; apply Hmiss; eauto.
      * intros (v & Hv & Hn). destruct Hmiss as [Hmiss | Hmiss];
          rewrite Hmiss in Hv; [discriminate|]. injection Hv as <-. discriminate.
  - split.
    + split; [|reflexivity]. intros _ k Hk. apply dict_filter_dom.
      destruct (decide (k ∈ dom (dict_filter cfg))) as [Hin|Hout]; [exact Hin|].
      exfalso. apply Hge, short_of_required. eauto.
    + intros ? ? [=].
Qed.

(** X5. The check of the required keys treats a key whose value is
    [None] like a key that is not there: it lets the run go on exactly
    when both required keys have a non-null value, and otherwise exits
    with status 1 after printing the required keys that are absent or
    null. *)
Theorem check_required_counts_null_as_missing cfg :
  (check_required cfg = Proceed ↔
   ∀ k, k ∈ REQUIRED_KEYS → ∃ v, cfg !! k = Some v ∧ is_none v = false) ∧
  (∀ status printed,
     check_required cfg = SysExit status printed →
     status = 1 ∧
     ∀ k, k ∈ printed ↔
          k ∈ REQUIRED_KEYS ∧ (cfg !! k = None ∨ cfg !! k = Some VNone)).
Proof. exact (check_required_cases cfg). Qed.

Lemma merged_sources_iff file creds cli :
  check_required (config_dict file creds cli) = Proceed ↔
  ∀ k, k ∈ REQUIRED_KEYS →
       ∃ v, is_none v = false ∧
            (file !! k = Some v ∨ creds !! k = Some v ∨ cli !! k = Some v).
Proof.
  rewrite (proj1 (check_required_cases _)).
  split; intros H k Hk; specialize (H k Hk).
  - destruct H as (v & Hv & Hn). exists v. split; [exact Hn|].
    unfold config_dict in Hv. rewrite merge_dicts_lookup, !dict_filter_lookup in Hv.
    destruct (cli !! k) as [x|]; [destruct (is_none x) eqn:E|].
    2:{ injection Hv as <-. auto. }
    all: destruct (creds !! k) as [y|]; [destruct (is_none y) eqn:E'|].
    all: try (injection Hv as <-; auto).
    all: destruct (file !! k) as [z|]; [destruct (is_none z) eqn:E''|];
      try discriminate Hv; injection Hv as <-; auto.
  - destruct H as (v & Hn & Hsrc).
    unfold config_dict. rewrite merge_dicts_lookup, !dict_filter_lookup.
    destruct (cli !! k) as [x|] eqn:Ex; [destruct (is_none x) eqn:E|].
    2:{ eauto. }
    all: destruct (creds !! k) as [y|] eqn:Ey; [destruct (is_none y) eqn:E'|].
    all: try (eexists; split; [reflexivity | assumption]).
    all: destruct (file !! k) as [z|] eqn:Ez; [destruct (is_none z) eqn:E''|].
    all: try (eexists; split; [reflexivity | assumption]).
    all: destruct Hsrc as [Hs | [Hs | Hs]]; try discriminate Hs;
      injection Hs as <-; congruence.
Qed.

Lemma merged_sources_pass file creds cli :
  (∀ k, k ∈ REQUIRED_KEYS →
        ∃ v, is_none v = false ∧
             (file !! k = Some v ∨ creds !! k = Some v ∨ cli !! k = Some v)) →
  check_required (config_dict file creds cli) = Proceed.
Proof. apply merged_sources_iff. Qed.

(** X6. After the merge the check passes exactly when each required key
    has a non-null value in at least one of the three sources. *)
Theorem merged_sources_pass_check file creds cli :
  check_required (config_dict file creds cli) = Proceed ↔
  ∀ k, k ∈ REQUIRED_KEYS →
       ∃ v, is_none v = false ∧
            (file !! k = Some v ∨ creds !! k = Some v ∨ cli !! k = Some v).
Proof. exact (merged_sources_iff file creds cli). Qed.

Lemma redacted_lookup (m : gmap string value) k :
  _filter_sensitive_args m !! k
  = if bool_decide (k ∈ sens_args) then None else m !! k.
Proof.
  unfold _filter_sensitive_args. case_bool_decide as Hk.
  - apply map_lookup_filter_None. right. intros v _ Hn. exact (Hn Hk).
  - destruct (m !! k) as [v|] eqn:E.
    + apply map_lookup_filter_Some. split; [exact E | exact Hk].
    + apply map_lookup_filter_None. left. exact E.
Qed.

(** X7. Redaction removes the four sensitive keys and nothing else: the
    keys of the result are the keys of the input without those four.
    Redacting twice is redacting once, and redaction can be swapped
    with the removal of null values. *)
Theorem redaction_algebra d :
  dom (_filter_sensitive_args d) = dom d ∖ list_to_set sens_args ∧
  _filter_sensitive_args (_filter_sensitive_args d) = _filter_sensitive_args d ∧
  _filter_sensitive_args (dict_filter d) = dict_filter (_filter_sensitive_args d).
Proof.
  pose proof redacted_lookup as Hlk.
  split; [|split].
  - apply set_eq. intros k.
    rewrite elem_of_difference, !elem_of_dom, Hlk, elem_of_list_to_set.
    case_bool_decide as Hk.
    + split; [intros [? [=]] | intros [_ Hn]; destruct (Hn Hk)].
    + split; [intros Hs; split; assumption | intros [Hs _]; exact Hs].
  - apply map_eq. intros k. rewrite !Hlk. case_bool_decide; reflexivity.
  - apply map_eq. intros k. rewrite Hlk, !dict_filter_lookup, Hlk.
    case_bool_decide; reflexivity.
Qed.

End MoreConfigFacts.

(** ** The stream and the export, once more *)

Section MoreStreamFacts.
Implicit Types (w : world) (l tweets : list value) (cfg : gmap string value).

(** X8. When [print_stream] is false ([--no-print-stream]) neither loop
    runs: whatever the handle and the export option, no record is taken
    from the stream, nothing is printed, no file is written and
    [all_tweets] stays empty. *)
Theorem no_print_stream_reads_nothing cfg ps w :
  cfg !! "print_stream" = Some ps → truthy ps = false →
  main_tail cfg w = (Ok [], w).
Proof.
  intros Hps Ht. unfold main_tail, getitem. rewrite Hps.
  rewrite (bind_ok _ _ w ps w) by reflexivity. rewrite Ht.
  rewrite (bind_ok _ _ w tt w) by reflexivity.
  erewrite bind_ok by reflexivity. rewrite Ht.
  erewrite bind_ok by reflexivity.
  simpl. rewrite andb_false_r. reflexivity.
Qed.

Lemma no_print_stream_reads_nothing_witness :
  let cfg : gmap string value :=
    {[ "print_stream" := VBool false; "export" := VStr "both" ]} in
  let w := start (Generator [one_tweet]) in
  main_tail cfg w = (Ok [], w).
Proof.
  intros cfg w.
  apply (no_print_stream_reads_nothing cfg (VBool false) w); reflexivity.
Defined.

(** X9. When [print_stream] is true and the handle is a generator, every
    pending record is taken once and printed once, in the order of the
    stream; the generator is left exhausted, two loops have been
    started on it and [all_tweets] is empty. *)
Theorem generator_is_echoed_once cfg ps w l :
  stream w = Generator l →
  cfg !! "print_stream" = Some ps → truthy ps = true →
  ∃ w', main_tail cfg w = (Ok [], w') ∧
        stdout w' = stdout w ++ map PrintJson l ∧
        pulled w' = pulled w ++ l ∧
        stream w' = Generator [] ∧
        iter_calls w' = S (S (iter_calls w)).
Proof.
  intros Hs Hps Ht. rewrite (main_tail_generator cfg w l ps Hs Hps), Ht.
  eexists. split; [reflexivity|]. repeat split.
Qed.

Lemma generator_is_echoed_once_witness :
  let w := start (Generator [accented_tweet; one_tweet]) in
  ∃ w', main_tail export_json_config w = (Ok [], w') ∧
        stdout w' = stdout w ++ map PrintJson [accented_tweet; one_tweet] ∧
        pulled w' = pulled w ++ [accented_tweet; one_tweet] ∧
        stream w' = Generator [] ∧
        iter_calls w' = S (S (iter_calls w)).
Proof.
  intros w.
  exact (generator_is_echoed_once export_json_config (VBool true) w
           [accented_tweet; one_tweet] eq_refl eq_refl eq_refl).
Defined.

(** X10. An [export] value other than the three strings is not an
    error: the export step then writes nothing and prints nothing,
    whatever records it is given. *)
Theorem unknown_export_type_is_silent export_type output_base tweets w :
  (∀ s, export_type = VStr s → s ∉ ["csv"; "json"; "both"]) →
  export_selected export_type output_base tweets w = (Ok tt, w).
Proof.
  intros Hno. unfold export_selected.
  assert (is_in export_type ["csv"; "both"] = false) as ->.
  { destruct export_type; try reflexivity. simpl. apply bool_decide_eq_false.
    intros Hin. apply (Hno s eq_refl). set_solver. }
  assert (is_in export_type ["json"; "both"] = false) as ->.
  { destruct export_type; try reflexivity. simpl. apply bool_decide_eq_false.
    intros Hin. apply (Hno s eq_refl). set_solver. }
  reflexivity.
Qed.

Lemma unknown_export_type_is_silent_witness :
  export_selected (VStr "CSV") (VStr "x") two_records (start (Generator []))
  = (Ok tt, start (Generator [])).
Proof.
  apply (unknown_export_type_is_silent (VStr "CSV") (VStr "x")).
  intros s [= <-] Hin. rewrite !elem_of_cons in Hin.
  destruct Hin as [H | [H | [H | H]]]; try discriminate H.
  apply elem_of_nil in H. exact H.
Defined.

End MoreStreamFacts.

(** ** The CSV writer, in general *)

Section CsvFacts.
Implicit Types (w : world) (d bad : list (string * value))
  (ds pre : list (list (string * value))) (post tweets : list value).

(** No key of [d'] is outside of the keys of [d]. *)
Abbreviation within d d' := (Forall (λ k, k ∈ map fst d) (map fst d')).

Lemma append_csv_json base : base +:+ ".csv" ≠ base +:+ ".json".
Proof.
  induction base as [|c base IH]; simpl; [discriminate|].
  intros H. injection H as H. exact (IH H).
Qed.





Lemma writerows_frame filename fieldnames tweets : ∀ w,
  stdout (Csv.writerows filename fieldnames tweets w).2 = stdout w ∧
  stream (Csv.writerows filename fieldnames tweets w).2 = stream w ∧
  iter_calls (Csv.writerows filename fieldnames tweets w).2 = iter_calls w ∧
  pulled (Csv.writerows filename fieldnames tweets w).2 = pulled w ∧
  ∀ f, f ≠ filename →
       files (Csv.writerows filename fieldnames tweets w).2 !! f = files w !! f.
Proof.
  induction tweets as [|t tweets IH]; intros w.
  - repeat split; reflexivity.
  - cbn [Csv.writerows]. unfold bind at 1 2 3 4 5, lift.
    destruct (Csv._dict_to_list fieldnames t) as [row|e];
      [|repeat split; reflexivity].
    unfold bind at 1 2 3 4 5. cbn [Csv.writerow].
    match goal with |- context [Csv.writerows _ _ _ ?w1] =>
      destruct (IH w1) as (H1 & H2 & H3 & H4 & H5) end.
    rewrite H1, H2, H3, H4. repeat split; try reflexivity.
    intros f Hf. rewrite (H5 f Hf). cbn [files]. apply lookup_insert_ne. congruence.
Qed.

(** [save_to_csv] once the header is written. *)
Lemma save_to_csv_body first rest filename w keys :
  Csv.keys first = Ok keys →
  save_to_csv (first :: rest) filename w =
  match Csv.writerows filename keys (first :: rest)
          (World (stdout w) (<[filename := CsvRows [map VStr keys]]> (files w))
                 (stream w) (iter_calls w) (pulled w)) with
  | (Ok _, w2) => print (PrintSaved (S (length rest)) filename) w2
  | (Raise e, w2) => (Raise e, w2)
  end.
Proof.
  intros Hk. unfold save_to_csv, bind, lift, open_w, Csv.writeheader, Csv.writerow.
  rewrite Hk. cbn [files stdout stream iter_calls pulled].
  rewrite lookup_insert_eq, insert_insert_eq. reflexivity.
Qed.

Lemma save_to_csv_frame tweets filename w :
  stream (save_to_csv tweets filename w).2 = stream w ∧
  iter_calls (save_to_csv tweets filename w).2 = iter_calls w ∧
  pulled (save_to_csv tweets filename w).2 = pulled w ∧
  ∀ f, f ≠ filename → files (save_to_csv tweets filename w).2 !! f = files w !! f.
Proof.
  destruct tweets as [|first rest]; [repeat split; reflexivity|].
  destruct (Csv.keys first) as [keys|e] eqn:Hk.
  2:{ unfold save_to_csv, bind, lift. rewrite Hk. repeat split; reflexivity. }
  rewrite (save_to_csv_body first rest filename w keys Hk).
  match goal with |- context [Csv.writerows ?a ?b ?c ?w1] =>
    pose proof (writerows_frame a b c w1) as (H1 & H2 & H3 & H4 & H5);
    destruct (Csv.writerows a b c w1) as [[[]|e] w2] end;
    cbn [fst snd print stdout files stream iter_calls pulled] in *;
    rewrite H2, H3, H4; repeat split; try reflexivity;
    intros f Hf; rewrite (H5 f Hf), !lookup_insert_ne by congruence; reflexivity.
Qed.

Lemma save_to_json_frame tweets filename w :
  (save_to_json tweets filename w).1 = Ok tt ∧
  stream (save_to_json tweets filename w).2 = stream w ∧
  iter_calls (save_to_json tweets filename w).2 = iter_calls w ∧
  pulled (save_to_json tweets filename w).2 = pulled w ∧
  ∀ f, f ≠ filename → files (save_to_json tweets filename w).2 !! f = files w !! f.
Proof.
  destruct tweets as [|first rest]; [repeat split; reflexivity|].
  rewrite save_to_json_writes. simpl. repeat split; try reflexivity.
  intros f Hf. apply lookup_insert_ne. congruence.
Qed.

Lemma write_chunks_frame filename chunks : ∀ w,
  stdout (write_chunks filename chunks w).2 = stdout w ∧
  stream (write_chunks filename chunks w).2 = stream w ∧
  iter_calls (write_chunks filename chunks w).2 = iter_calls w ∧
  pulled (write_chunks filename chunks w).2 = pulled w ∧
  ∀ f, f ≠ filename → files (write_chunks filename chunks w).2 !! f = files w !! f.
Proof.
  induction chunks as [|ch chunks IH]; intros w.
  - repeat split; reflexivity.
  - cbn [write_chunks]. destruct (Json.chunk_encodable ch);
      [|repeat split; reflexivity].
    unfold bind at 1 2 3 4 5. cbn [write].
    match goal with |- context [write_chunks _ _ ?w1] =>
      destruct (IH w1) as (H1 & H2 & H3 & H4 & H5) end.
    rewrite H1, H2, H3, H4. repeat split; try reflexivity.
    intros f Hf. rewrite (H5 f Hf). cbn [files]. apply lookup_insert_ne. congruence.
Qed.

Lemma save_to_json_strict_frame opening tweets filename w :
  stream (save_to_json_strict opening tweets filename w).2 = stream w ∧
  iter_calls (save_to_json_strict opening tweets filename w).2 = iter_calls w ∧
  pulled (save_to_json_strict opening tweets filename w).2 = pulled w ∧
  ∀ f, f ≠ filename →
       files (save_to_json_strict opening tweets filename w).2 !! f = files w !! f.
Proof.
  destruct tweets as [|first rest]; [repeat split; reflexivity|].
  unfold save_to_json_strict, bind, lift, open_w.
  destruct (opening filename) as [[]|e]; [|repeat split; reflexivity].
  match goal with |- context [write_chunks ?a ?b ?w1] =>
    pose proof (write_chunks_frame a b w1) as (H1 & H2 & H3 & H4 & H5);
    destruct (write_chunks a b w1) as [[[]|e] w2] end;
    cbn [fst snd print stdout files stream iter_calls pulled] in *;
    rewrite H2, H3, H4; repeat split; try reflexivity;
    intros f Hf; rewrite (H5 f Hf), !lookup_insert_ne by congruence; reflexivity.
Qed.






(** X13. Each writer touches only the file it is given, also when it
    fails: when the CSV writer stops at a record with an extra key,
    when the JSON file cannot be opened and when a string cannot be
    encoded, every other file is as before and the stream is not
    read. *)
Theorem writers_touch_only_their_file opening tweets filename w f :
  f ≠ filename →
  (files (save_to_csv tweets filename w).2 !! f = files w !! f ∧
   stream (save_to_csv tweets filename w).2 = stream w ∧
   pulled (save_to_csv tweets filename w).2 = pulled w) ∧
  (files (save_to_json_strict opening tweets filename w).2 !! f = files w !! f ∧
   stream (save_to_json_strict opening tweets filename w).2 = stream w ∧
   pulled (save_to_json_strict opening tweets filename w).2 = pulled w).
Proof.
  intros Hf.
  destruct (save_to_csv_frame tweets filename w) as (H1 & _ & H3 & H4).
  destruct (save_to_json_strict_frame opening tweets filename w) as (J1 & _ & J3 & J4).
  repeat split; auto.
Qed.

Lemma writers_touch_only_their_file_witness :
  let w := World [] {[ "keep.txt" := JsonText [] ]} (Generator [one_tweet]) 0 [] in
  (files (save_to_csv two_records "out/x" w).2 !! "keep.txt" = files w !! "keep.txt" ∧
   stream (save_to_csv two_records "out/x" w).2 = stream w ∧
   pulled (save_to_csv two_records "out/x" w).2 = pulled w) ∧
  (files (save_to_json_strict no_out_directory two_records "out/x" w).2 !! "keep.txt"
   = files w !! "keep.txt" ∧
   stream (save_to_json_strict no_out_directory two_records "out/x" w).2 = stream w ∧
   pulled (save_to_json_strict no_out_directory two_records "out/x" w).2 = pulled w).
Proof.
  intros w.
  apply (writers_touch_only_their_file no_out_directory two_records "out/x" w "keep.txt").
  discriminate.
Defined.

(** X14. With [export] set to [both] the CSV file is written first, and
    when that fails the failure is the outcome of the export: the JSON
    writer is not called and the JSON file is as it was. *)
Theorem csv_failure_blocks_json base tweets w e w' :
  save_to_csv tweets (base +:+ ".csv") w = (Raise e, w') →
  export_selected (VStr "both") (VStr base) tweets w = (Raise e, w') ∧
  files w' !! (base +:+ ".json") = files w !! (base +:+ ".json").
Proof.
  intros H. split.
  - unfold export_selected, fstring. cbn [is_in].
    rewrite bool_decide_eq_true_2 by set_solver.
    unfold bind at 1. unfold bind at 1, ret at 1. rewrite H. reflexivity.
  - destruct (save_to_csv_frame tweets (base +:+ ".csv") w) as (_ & _ & _ & Hfr).
    rewrite H in Hfr. apply Hfr. intros Heq. exact (append_csv_json base (eq_sym Heq)).
Qed.

Lemma csv_failure_blocks_json_witness :
  let w := start (Generator []) in
  let w' := World [] {[ "x.csv" := CsvRows [[VStr "a"]; [VInt 1]] ]}
                  (Generator []) 0 [] in
  export_selected (VStr "both") (VStr "x") two_records w
  = (Raise (ValueError ["b"]), w') ∧
  files w' !! ("x" +:+ ".json") = files w !! ("x" +:+ ".json").
Proof.
  intros w w'.
  apply (csv_failure_blocks_json "x" two_records w (ValueError ["b"]) w').
  reflexivity.
Defined.



End CsvFacts.

(** ** The JSON decoder and encoder, in general *)

Module MoreJsonFacts.
Import Json.
Local Open Scope char_scope.

Lemma dict_set_keys d k v :
  map fst (dict_set d k v)
  = if bool_decide (k ∈ map fst d) then map fst d else map fst d ++ [k].
Proof.
  induction d as [|[k' x] d IH]; [reflexivity|]. simpl.
  destruct (String.eqb_spec k' k) as [-> | Hne].
  - rewrite bool_decide_eq_true_2 by left. reflexivity.
  - simpl. rewrite IH. destruct (bool_decide (k ∈ map fst d)) eqn:E.
    + apply bool_decide_eq_true in E.
      rewrite bool_decide_eq_true_2 by (right; exact E). reflexivity.
    + apply bool_decide_eq_false in E.
      rewrite bool_decide_eq_false_2; [reflexivity|].
      intros Hin. apply elem_of_cons in Hin as [-> | Hin]; [congruence | exact (E Hin)].
Qed.

Lemma dict_set_nodup d k v : NoDup (map fst d) → NoDup (map fst (dict_set d k v)).
Proof.
  intros Hnd. rewrite dict_set_keys. case_bool_decide as Hk; [exact Hnd|].
  apply NoDup_app. split; [exact Hnd|]. split; [|apply NoDup_singleton].
  intros x Hx Hx'. apply list_elem_of_singleton in Hx'. subst x. exact (Hk Hx).
Qed.

Lemma dict_set_values (P : value → Prop) d k v :
  Forall (λ kv, P kv.2) d → P v → Forall (λ kv, P kv.2) (dict_set d k v).
Proof.
  intros Hd Hv. induction d as [|[k' x] d IH]; simpl.
  - constructor; [exact Hv | constructor].
  - apply Forall_cons in Hd as [Hx Hd].
    destruct (String.eqb k' k); constructor; auto.
Qed.

Lemma dict_get_set d k v k' :
  Csv.dict_get (dict_set d k v) k'
  = if String.eqb k k' then Some v else Csv.dict_get d k'.
Proof.
  induction d as [|[k0 x] d IH]; simpl.
  - reflexivity.
  - destruct (String.eqb_spec k0 k) as [-> | Hne]; simpl.
    + destruct (String.eqb k k'); reflexivity.
    + rewrite IH. destruct (String.eqb_spec k0 k') as [-> | Hne'];
        [|reflexivity].
      destruct (String.eqb_spec k k') as [-> |]; [congruence | reflexivity].
Qed.

Lemma fold_dict_set_facts (P : value → Prop) pairs : ∀ acc,
  NoDup (map fst acc) → Forall (λ kv, P kv.2) acc → Forall (λ kv, P kv.2) pairs →
  let d := fold_left (λ d kv, dict_set d kv.1 kv.2) pairs acc in
  NoDup (map fst d) ∧ Forall (λ kv, P kv.2) d ∧
  ∀ k, Csv.dict_get d k = match Csv.dict_get (rev pairs) k with
                          | Some v => Some v
                          | None => Csv.dict_get acc k
                          end.
Proof.
  induction pairs as [|[k v] pairs IH]; intros acc Hnd Hacc Hps; simpl.
  - auto.
  - apply Forall_cons in Hps as [Hv Hps]. simpl in Hv.
    destruct (IH (dict_set acc k v) (dict_set_nodup _ _ _ Hnd)
                 (dict_set_values P _ _ _ Hacc Hv) Hps) as (H1 & H2 & H3).
    split; [exact H1|]. split; [exact H2|]. intros k'. rewrite H3.
    assert (∀ l, Csv.dict_get (l ++ [(k, v)]) k'
                 = match Csv.dict_get l k' with
                   | Some x => Some x
                   | None => if String.eqb k k' then Some v else None
                   end) as Happ.
    { induction l as [|[k0 x] l IHl]; simpl; [reflexivity|].
      destruct (String.eqb k0 k'); [reflexivity | exact IHl]. }
    rewrite Happ, dict_get_set.
    destruct (Csv.dict_get (rev pairs) k'), (String.eqb k k'); reflexivity.
Qed.

(** X16. When the text of a JSON object repeats a key, the decoded
    dictionary has that key once, with the value given last: its keys
    are distinct, and looking a key up gives what the last pair with
    that key holds. *)
Theorem repeated_key_keeps_last_value pairs :
  NoDup (map fst (dict_of_pairs pairs)) ∧
  ∀ k, Csv.dict_get (dict_of_pairs pairs) k = Csv.dict_get (rev pairs) k.
Proof.
  destruct (fold_dict_set_facts (λ _, True) pairs [] (NoDup_nil_2)
              (Forall_nil_2 _) (Forall_true _ _ (λ _, I))) as (H1 & _ & H3).
  split; [exact H1|]. intros k. unfold dict_of_pairs. rewrite (H3 k).
  destruct (Csv.dict_get (rev pairs) k); reflexivity.
Qed.

Lemma forallb_well_formed l :
  Forall (λ v, well_formed v = true) l → forallb well_formed l = true.
Proof. induction 1 as [|v l Hv _ IH]; simpl; [reflexivity|]. rewrite Hv. exact IH. Qed.

Lemma forallb_well_formed_items (d : list (string * value)) :
  Forall (λ kv, well_formed kv.2 = true) d →
  forallb (λ '(_, x), well_formed x) d = true.
Proof.
  induction 1 as [|[k v] d Hv _ IH]; simpl; [reflexivity|].
  simpl in Hv. rewrite Hv. exact IH.
Qed.

Lemma match_number_gives_int s v r : match_number s = Some (v, r) → ∃ z, v = VInt z.
Proof.
  unfold match_number. intros H.
  repeat match type of H with
         | context [match ?x with _ => _ end] => destruct x; try discriminate H
         end;
    injection H as <- _; eauto.
Qed.

Lemma scan_once_unfold fuel c r :
  scan_once (S fuel) (c :: r) =
  if Ascii.eqb c quote then
    '(str, rest) ← scanstring r; Some (VStr (string_of_list_ascii str), rest)
  else if Ascii.eqb c "{" then
    match skip_ws r with
    | c1 :: r1 =>
        if Ascii.eqb c1 "}" then Some (VDict [], r1)
        else '(pairs, rest) ← members fuel (c1 :: r1);
             Some (VDict (dict_of_pairs pairs), rest)
    | [] => None
    end
  else if Ascii.eqb c "[" then
    match skip_ws r with
    | c1 :: r1 =>
        if Ascii.eqb c1 "]" then Some (VList [], r1)
        else '(values, rest) ← elements fuel (c1 :: r1); Some (VList values, rest)
    | [] => None
    end
  else
    match literal (chars "null") (c :: r) with
    | Some rest => Some (VNone, rest)
    | None =>
    match literal (chars "true") (c :: r) with
    | Some rest => Some (VBool true, rest)
    | None =>
    match literal (chars "false") (c :: r) with
    | Some rest => Some (VBool false, rest)
    | None => match_number (c :: r)
    end end end.
Proof. reflexivity. Qed.

Lemma members_unfold fuel s :
  members (S fuel) s =
  match s with
  | c0 :: r0 =>
      if Ascii.eqb c0 quote then
        '(key, r) ← scanstring r0;
        match skip_ws r with
        | c :: r1 =>
            if Ascii.eqb c ":" then
              '(v, r2) ← scan_once fuel (skip_ws r1);
              match skip_ws r2 with
              | c' :: r3 =>
                  if Ascii.eqb c' "}" then Some ([(string_of_list_ascii key, v)], r3)
                  else if Ascii.eqb c' "," then
                    '(pairs, rest) ← members fuel (skip_ws r3);
                    Some ((string_of_list_ascii key, v) :: pairs, rest)
                  else None
              | [] => None
              end
            else None
        | [] => None
        end
      else None
  | [] => None
  end.
Proof. reflexivity. Qed.

Ltac split_scan H :=
  repeat match type of H with
         | context [mbind _ ?x] => destruct x as [[? ?]|] eqn:?; cbn [mbind option_bind] in H
         | context [match ?x with _ => _ end] => destruct x eqn:?
         | context [if ?x then _ else _] => destruct x eqn:?
         end;
  try discriminate H.

Lemma scanners_well_formed fuel :
  (∀ s v r, scan_once fuel s = Some (v, r) → well_formed v = true) ∧
  (∀ s vs r, elements fuel s = Some (vs, r) →
             Forall (λ v, well_formed v = true) vs) ∧
  (∀ s ps r, members fuel s = Some (ps, r) →
             Forall (λ kv, well_formed kv.2 = true) ps).
Proof.
  induction fuel as [|fuel (IH1 & IH2 & IH3)];
    [repeat split; intros; discriminate|].
  split; [|split].
  - intros s v r H. destruct s as [|c s]; [discriminate|].
    rewrite scan_once_unfold in H. split_scan H.
    all: try (apply match_number_gives_int in H as [? ->]; reflexivity).
    all: injection H as <- _; try reflexivity.
    all: try (simpl; apply forallb_well_formed; eapply IH2; eassumption).
    all: match goal with Hm : members _ _ = Some _ |- _ => apply IH3 in Hm as Hwf end;
      destruct (fold_dict_set_facts (λ v, well_formed v = true) _ [] NoDup_nil_2
                  (Forall_nil_2 _) Hwf) as (Hnd & Hall & _);
      simpl; apply andb_true_iff; split;
      [ apply bool_decide_eq_true_2; exact Hnd
      | apply forallb_well_formed_items; exact Hall ].
  - intros s vs r H. rewrite JsonFacts.elements_step in H. split_scan H.
    all: injection H as <- _.
    all: repeat constructor; first [eapply IH1; eassumption | eapply IH2; eassumption].
  - intros s ps r H. rewrite members_unfold in H. split_scan H.
    all: injection H as <- _.
    all: repeat constructor; simpl;
      first [eapply IH1; eassumption | eapply IH3; eassumption].
Qed.

Lemma loads_is_well_formed_lemma s v : loads s = Some v → well_formed v = true.
Proof.
  unfold loads. intros H.
  destruct (scan_once (S (length s)) (skip_ws s)) as [[obj rest]|] eqn:E;
    [|discriminate H].
  cbn [mbind option_bind] in H. destruct (skip_ws rest); [|discriminate H].
  injection H as <-. exact (proj1 (scanners_well_formed _) _ _ _ E).
Qed.

(** X17. Whatever text it is given, a value that [loads] returns has
    distinct keys in each of its dictionaries, at every depth. *)
Theorem loads_is_well_formed s v : loads s = Some v → well_formed v = true.
Proof. exact (loads_is_well_formed_lemma s v). Qed.

Lemma loads_is_well_formed_witness :
  well_formed (VDict [("a"%string, VInt 2); ("b"%string, VList [VNone])]) = true.
Proof.
  apply (loads_is_well_formed
           (json_text "{ 'a': 1, 'b': [null], 'a': 2 }"%string)).
  vm_compute. reflexivity.
Defined.

(** X18. Two well-formed values with the same encoding are the same
    value: different record lists never give the same JSON file. *)
Theorem dump_is_injective v1 v2 :
  well_formed v1 = true → well_formed v2 = true →
  dump v1 = dump v2 → v1 = v2.
Proof.
  intros H1 H2 Heq.
  pose proof (JsonFacts.loads_dump v1 H1) as L1.
  pose proof (JsonFacts.loads_dump v2 H2) as L2.
  rewrite Heq, L2 in L1. injection L1 as ->. reflexivity.
Qed.

Lemma dump_is_injective_witness :
  dump (VList [accented_tweet]) = dump (VList [accented_tweet]) ∧
  VList [accented_tweet] = VList [accented_tweet].
Proof.
  split; [reflexivity|].
  apply (dump_is_injective (VList [accented_tweet]) (VList [accented_tweet]));
    [vm_compute; reflexivity | vm_compute; reflexivity | reflexivity].
Defined.

(** [c] is a line feed, or not below 0x20. *)
Local Abbreviation plain c := (orb (Ascii.eqb c newline) (N.leb 32 (N_of_ascii c))).







End MoreJsonFacts.

(** ** [main] as a whole *)

Section MainFacts.
Import Config.
Variable c : collaborators.
Implicit Types (args ns cfg : gmap string value) (w : world) (k : string).

Lemma skip_ws_blank s : Forall (λ ch, Json.is_ws ch = true) s → Json.skip_ws s = [].
Proof. induction 1 as [|ch s Hch _ IH]; simpl; [reflexivity|]. rewrite Hch. exact IH. Qed.

Lemma loads_blank s : Forall (λ ch, Json.is_ws ch = true) s → Json.loads s = None.
Proof. intros H. unfold Json.loads. rewrite (skip_ws_blank s H). reflexivity. Qed.

Lemma moved_headers_cases args args' :
  move_extra_headers args = inr args' →
  (args' = args ∧ (args !! "extra_headers" = None ∨ args !! "extra_headers" = Some VNone)) ∨
  (∃ s headers, args !! "extra_headers" = Some (VStr s) ∧
                Json.loads (Json.chars s) = Some headers ∧
                args' = delete "extra_headers" (<["extra_headers_dict" := headers]> args)).
Proof.
  unfold move_extra_headers. intros H.
  destruct (args !! "extra_headers") as [[| | |s| |]|] eqn:E; try discriminate H.
  - injection H as <-. left. auto.
  - destruct (Json.loads (Json.chars s)) as [headers|] eqn:L; [|discriminate H].
    injection H as <-. right. eauto.
  - injection H as <-. left. auto.
Qed.

Lemma moved_headers_other args args' k :
  move_extra_headers args = inr args' →
  k ≠ "extra_headers" → k ≠ "extra_headers_dict" → args' !! k = args !! k.
Proof.
  intros H H1 H2.
  destruct (moved_headers_cases args args' H) as [[-> _] | (s & h & _ & _ & ->)];
    [reflexivity|].
  rewrite lookup_delete_ne, lookup_insert_ne by congruence. reflexivity.
Qed.

(** X20. When the step that decodes [--extra-headers] succeeds, the key
    [extra_headers] no longer contributes to the merge: it is deleted,
    or null.  A text that was given is decoded under
    [extra_headers_dict], into a value with distinct keys, and no other
    argument is changed. *)
Theorem extra_headers_are_moved args args' :
  move_extra_headers args = inr args' →
  dict_filter args' !! "extra_headers" = None ∧
  (∀ k, k ≠ "extra_headers" → k ≠ "extra_headers_dict" → args' !! k = args !! k) ∧
  (∀ s, args !! "extra_headers" = Some (VStr s) →
        ∃ headers, Json.loads (Json.chars s) = Some headers ∧
                   args' !! "extra_headers_dict" = Some headers ∧
                   well_formed headers = true).
Proof.
  intros H. split; [|split].
  - rewrite dict_filter_lookup.
    destruct (moved_headers_cases args args' H)
      as [[-> [E | E]] | (s & h & _ & _ & ->)].
    + rewrite E. reflexivity.
    + rewrite E. reflexivity.
    + rewrite lookup_delete_eq. reflexivity.
  - intros k. apply moved_headers_other. exact H.
  - intros s Hs.
    destruct (moved_headers_cases args args' H)
      as [[_ [E | E]] | (s' & h & E & L & ->)]; try congruence.
    rewrite Hs in E. injection E as <-. exists h. split; [exact L|]. split.
    + rewrite lookup_delete_ne, lookup_insert_eq by discriminate. reflexivity.
    + exact (MoreJsonFacts.loads_is_well_formed_lemma _ _ L).
Qed.

Lemma extra_headers_are_moved_witness :
  let args : gmap string value :=
    {[ "extra_headers" :=
         VStr (string_of_list_ascii (json_text "{'x-id': 'a', 'n': [1, 2]}")) ]} in
  let headers := VDict [("x-id", VStr "a"); ("n", VList [VInt 1; VInt 2])] in
  let moved := delete "extra_headers" (<["extra_headers_dict" := headers]> args) in
  dict_filter moved !! "extra_headers" = None ∧
  (∀ k, k ≠ "extra_headers" → k ≠ "extra_headers_dict" → moved !! k = args !! k) ∧
  (∀ s, args !! "extra_headers" = Some (VStr s) →
        ∃ headers, Json.loads (Json.chars s) = Some headers ∧
                   moved !! "extra_headers_dict" = Some headers ∧
                   well_formed headers = true).
Proof.
  intros args headers moved. apply (extra_headers_are_moved args moved).
  unfold move_extra_headers, args. rewrite lookup_singleton_eq.
  replace (Json.loads _) with (Some headers) by (vm_compute; reflexivity).
  reflexivity.
Defined.

Lemma prepare_success args cfg h log :
  prepare c args = (inr (cfg, h), log) →
  ∃ cf moved creds params rs,
    load_configfile c args = inr cf ∧
    move_extra_headers args = inr moved ∧
    is_Some (moved !! "config_filename") ∧
    credentials c moved = inr creds ∧
    cfg = config_dict cf creds moved ∧
    check_required cfg = Proceed ∧
    gen_params_from_config c cfg = Some params ∧
    ResultStream c params = Some rs ∧
    h = open_stream c rs cfg.
Proof.
  unfold prepare, item. intros H.
  destruct (load_configfile c args) as [?|cf] eqn:El; [discriminate H|].
  destruct (move_extra_headers args) as [?|moved] eqn:Em; [discriminate H|].
  destruct (moved !! "config_filename") as [v|] eqn:Ecf; [|discriminate H].
  destruct (credentials c moved) as [?|creds] eqn:Ec; [discriminate H|].
  destruct (check_required (config_dict cf creds moved)) eqn:Echk; [|discriminate H].
  destruct (gen_params_from_config c (config_dict cf creds moved)) as [params|] eqn:Eg;
    [|discriminate H].
  destruct (ResultStream c params) as [rs|] eqn:Ers; [|discriminate H].
  injection H as <- <- _. exists cf, moved, creds, params, rs.
  repeat (split; [first [reflexivity | eassumption | eauto]|]). reflexivity.
Qed.

Lemma open_stream_forward_only rs cfg :
  (∀ rs, forward_only (rs_stream c rs)) →
  (∀ rs prefix per_file, forward_only (write_result_stream c rs prefix per_file)) →
  forward_only (open_stream c rs cfg).
Proof. intros H1 H2. unfold open_stream. destruct (is_none _); auto. Qed.

(** X21. When the streams the collaborators hand out are forward-only,
    as generators are, no run of [main] gets to a writer, whatever the
    arguments, the configuration and the records: a run that gets to
    the end has collected nothing, and all that the loops and the
    export step have printed are the records echoed, so neither the
    line of a saved file nor [No tweets to save.].  (What is printed
    before [sys.exit] is kept in [SystemExit].) *)
Theorem main_never_exports args w :
  (∀ rs, forward_only (rs_stream c rs)) →
  (∀ rs prefix per_file, forward_only (write_result_stream c rs prefix per_file)) →
  (∀ all_tweets, ended (main c args w) = Done all_tweets → all_tweets = []) ∧
  ∃ echoed, stdout (after (main c args w)) = stdout w ++ map PrintJson echoed.
Proof.
  intros H1 H2. unfold main.
  destruct (prepare c args) as [[f|[cfg h]] log] eqn:Hp.
  - split; [discriminate|]. exists []. simpl. rewrite app_nil_r. reflexivity.
  - apply prepare_success in Hp as (? & ? & ? & ? & rs & _ & _ & _ & _ & _ & _ & _ & _ & ->).
    pose proof (open_stream_forward_only rs cfg H1 H2) as Hfw.
    destruct (open_stream c rs cfg) as [l|l] eqn:Hs; [clear Hfw | destruct Hfw].
    destruct (cfg !! "print_stream") as [ps|] eqn:Hps.
    + rewrite (main_tail_generator cfg (set_stream (Generator l) w) l ps eq_refl Hps).
      split; [intros ? [= <-]; reflexivity|].
      destruct (truthy ps); [exists l | exists []]; simpl;
        rewrite ?app_nil_r; reflexivity.
    + unfold main_tail, getitem. rewrite Hps. unfold bind, raise. simpl.
      split; [discriminate|]. exists []. rewrite app_nil_r. reflexivity.
Qed.

Lemma cli_value_wins cf creds cli k v :
  cli !! k = Some v → is_none v = false → config_dict cf creds cli !! k = Some v.
Proof.
  intros Hk Hn. unfold config_dict.
  rewrite merge_dicts_lookup, dict_filter_lookup, Hk, Hn. reflexivity.
Qed.

Lemma logged_is_prepared args w : logged (main c args w) = (prepare c args).2.
Proof.
  unfold main. destruct (prepare c args) as [[f|[cfg h]] log]; [reflexivity|].
  destruct (main_tail cfg (set_stream h w)) as [[?|?] ?]; reflexivity.
Qed.

Lemma prepare_log args :
  Forall (λ d, d = args ∨ ∃ m, d = _filter_sensitive_args m) (prepare c args).2.
Proof.
  unfold prepare.
  set (log1 := match args !! "debug" with
               | Some (VBool true) => [args]
               | _ => []
               end).
  assert (Forall (λ d, d = args ∨ ∃ m, d = _filter_sensitive_args m) log1) as H1.
  { unfold log1. destruct (args !! "debug") as [[|[]| | | |]|]; repeat constructor. }
  clearbody log1.
  repeat match goal with
         | |- context [match ?x with _ => _ end] => destruct x
         end; cbn [snd];
    repeat (apply Forall_app_2; [|apply Forall_singleton; right; eauto]);
    exact H1.
Qed.

(** X22. The dictionaries [main] hands to the debug log never have one
    of the four sensitive names among their keys, whatever the command
    line, the configuration file and the credentials hold and however
    the run ends. *)
Theorem debug_log_has_no_sensitive_key occs ns w :
  Argparse.parse_args occs = Argparse.Namespace ns →
  Forall (λ d : gmap string value, ∀ k, k ∈ sens_args → d !! k = None)
         (logged (main c ns w)).
Proof.
  intros Hns. rewrite logged_is_prepared.
  eapply Forall_impl; [apply prepare_log|].
  intros d [-> | [m ->]] k Hk.
  - apply not_elem_of_dom. rewrite (ArgparseFacts.namespace_dom occs ns Hns).
    apply ArgparseFacts.sensitive_is_no_dest, Hk.
  - rewrite redacted_lookup. rewrite bool_decide_eq_true_2 by exact Hk. reflexivity.
Qed.

(** X23. When the merged configuration lacks a required key, [main]
    stops with exit status 1 and has read no record, printed no record
    and written no file; when it lacks none, [main] does not stop with
    an exit status. *)
Theorem missing_required_key_exits args w cf moved creds :
  load_configfile c args = inr cf →
  move_extra_headers args = inr moved →
  is_Some (moved !! "config_filename") →
  credentials c moved = inr creds →
  (∀ status printed,
     check_required (config_dict cf creds moved) = SysExit status printed →
     main c args w
     = Run (Stopped (SystemExit 1 printed)) w (logged (main c args w))) ∧
  (check_required (config_dict cf creds moved) = Proceed →
   ∀ status printed, ended (main c args w) ≠ Stopped (SystemExit status printed)).
Proof.
  intros Hl Hm [v Hcf] Hc. unfold main, prepare, item.
  rewrite Hl, Hm, Hcf, Hc. split.
  - intros status printed Hchk. rewrite Hchk.
    unfold check_required in Hchk. destruct (decide _); [|discriminate Hchk].
    injection Hchk as <- _. reflexivity.
  - intros Hchk status printed. rewrite Hchk.
    destruct (gen_params_from_config c _) as [params|]; [|discriminate].
    destruct (ResultStream c params) as [rs|]; [|discriminate].
    destruct (main_tail _ _) as [[?|?] ?]; discriminate.
Qed.

(** X24. For the arguments that are never null on the command line,
    [print_stream], [debug], [env_overwrite] and [output_filename], the
    merged configuration has the value of the command line: the
    configuration file and the credentials cannot set them. *)
Theorem command_line_settings_win occs ns cfg h log k :
  Argparse.parse_args occs = Argparse.Namespace ns →
  prepare c ns = (inr (cfg, h), log) →
  k ∈ ["print_stream"; "debug"; "env_overwrite"; "output_filename"] →
  cfg !! k = ns !! k ∧ ∃ v, ns !! k = Some v ∧ is_none v = false.
Proof.
  intros Hns Hp Hk.
  apply prepare_success in Hp
    as (cf & moved & creds & _ & _ & _ & Hm & _ & _ & -> & _).
  assert (∃ v, ns !! k = Some v ∧ is_none v = false) as (v & Hv & Hn).
  { destruct (ArgparseFacts.namespace_types occs ns Hns)
      as ((b1 & H1) & (b2 & H2) & (s3 & H3) & H4 & _).
    repeat (apply elem_of_cons in Hk as [-> | Hk]); eauto.
    apply elem_of_nil in Hk. destruct Hk. }
  split; [|eauto]. rewrite Hv. apply cli_value_wins; [|exact Hn].
  rewrite (moved_headers_other ns moved k Hm); [exact Hv | |].
  all: intros ->; repeat (apply elem_of_cons in Hk as [Hk | Hk]; [discriminate Hk|]);
    apply elem_of_nil in Hk; exact Hk.
Qed.

(** X25. A blank [--extra-headers] stops the run before the
    credentials are loaded: decoding the text fails, nothing is read
    from the stream and no file is written. *)
Theorem blank_extra_headers_stop_the_run args s w cf :
  load_configfile c args = inr cf →
  args !! "extra_headers" = Some (VStr s) →
  Forall (λ ch, Json.is_ws ch = true) (Json.chars s) →
  ended (main c args w) = Stopped HeadersRejected ∧ after (main c args w) = w.
Proof.
  intros Hl Hs Hblank. unfold main, prepare, move_extra_headers.
  rewrite Hl, Hs, (loads_blank _ Hblank). split; reflexivity.
Qed.

(** The loops of [main] do not fail: printing a record never does. *)
Lemma loop_echo_ok own l : ∀ w, ∃ w', loop own l echo tt w = (Ok tt, w').
Proof.
  induction l as [|x l IH]; intros w; [eexists; reflexivity|].
  cbn [loop]. unfold bind at 1, take at 1. unfold bind at 1, echo at 1, print at 1.
  apply IH.
Qed.

Lemma loop_collect_ok own l : ∀ acc w,
  ∃ acc' w', loop own l echo_collect acc w = (Ok acc', w').
Proof.
  induction l as [|x l IH]; intros acc w; [eexists _, _; reflexivity|].
  cbn [loop]. unfold bind at 1, take at 1.
  unfold bind at 1, echo_collect at 1, bind at 1, print at 1, ret at 1.
  apply IH.
Qed.

Lemma for_in_echo_ok w : ∃ w', for_in echo tt w = (Ok tt, w').
Proof. unfold for_in. destruct (stream w); apply loop_echo_ok. Qed.

Lemma for_in_collect_ok w : ∃ acc w', for_in echo_collect [] w = (Ok acc, w').
Proof. unfold for_in. destruct (stream w); apply loop_collect_ok. Qed.

(** The writers fail on a record that is no dictionary, and on a key
    that the header has not: never with a [KeyError]. *)
Lemma dict_to_list_raises fieldnames rowdict e k :
  Csv._dict_to_list fieldnames rowdict = Raise e → e ≠ KeyError k.
Proof.
  unfold Csv._dict_to_list.
  destruct rowdict; try (intros [= <-]; discriminate).
  destruct (filter _ _); intros [= <-]; discriminate.
Qed.

Lemma writerows_raises filename fieldnames rows k : ∀ w,
  (Csv.writerows filename fieldnames rows w).1 ≠ Raise (KeyError k).
Proof.
  induction rows as [|r rows IH]; intros w; [simpl; discriminate|].
  cbn [Csv.writerows]. unfold bind at 1, lift.
  destruct (Csv._dict_to_list fieldnames r) as [row|e] eqn:E.
  - unfold bind at 1. cbn [Csv.writerow]. apply IH.
  - simpl. intros [= ->]. exact (dict_to_list_raises _ _ _ k E eq_refl).
Qed.

Lemma save_to_csv_raises tweets filename w k :
  (save_to_csv tweets filename w).1 ≠ Raise (KeyError k).
Proof.
  destruct tweets as [|first rest]; [simpl; discriminate|].
  destruct (Csv.keys first) as [keys|e] eqn:Hk.
  - rewrite (save_to_csv_body first rest filename w keys Hk).
    match goal with |- context [Csv.writerows ?a ?b ?c ?w1] =>
      pose proof (writerows_raises a b c k w1) as H;
      destruct (Csv.writerows a b c w1) as [[[]|e] w2] end;
      simpl in *; [discriminate | exact H].
  - unfold save_to_csv, bind, lift. rewrite Hk. simpl.
    destruct first; try discriminate Hk; injection Hk as <-; discriminate.
Qed.

Lemma export_selected_raises export_type output_base tweets w k :
  (export_selected export_type output_base tweets w).1 ≠ Raise (KeyError k).
Proof.
  unfold export_selected. unfold bind at 1.
  assert (∀ w1, ((if is_in export_type ["json"; "both"]
                  then filename <- fstring output_base ".json" ;;
                       save_to_json tweets filename
                  else ret tt) w1).1 ≠ Raise (KeyError k)) as Hjson.
  { intros w1. destruct (is_in export_type ["json"; "both"]); [|simpl; discriminate].
    destruct output_base; try (simpl; discriminate).
    unfold bind, fstring, ret.
    pose proof (save_to_json_frame tweets (s +:+ ".json") w1) as [Hok _].
    rewrite Hok. discriminate. }
  destruct (is_in export_type ["csv"; "both"]).
  - destruct output_base; try (simpl; discriminate).
    unfold bind at 1, fstring at 1, ret at 1.
    pose proof (save_to_csv_raises tweets (s +:+ ".csv") w k) as Hcsv.
    destruct (save_to_csv tweets (s +:+ ".csv") w) as [[[]|e] w1];
      [apply Hjson | exact Hcsv].
  - apply Hjson.
Qed.

(** Lines 245-265 end on a [KeyError] only when [print_stream] is not
    in the configuration. *)
Lemma main_tail_key_error cfg w k :
  (main_tail cfg w).1 = Raise (KeyError k) → cfg !! "print_stream" = None.
Proof.
  destruct (cfg !! "print_stream") as [ps|] eqn:Hps; [|reflexivity].
  intros H. exfalso. revert H.
  unfold main_tail, getitem. rewrite Hps.
  rewrite (bind_ok _ _ w ps w) by reflexivity.
  assert (∃ w1, (if truthy ps then for_in echo tt else ret tt) w = (Ok tt, w1))
    as [w1 Hw1]
    by (destruct (truthy ps); [apply for_in_echo_ok | eexists; reflexivity]).
  rewrite (bind_ok _ _ w tt w1 Hw1).
  rewrite (bind_ok _ _ w1 ps w1) by reflexivity.
  assert (∃ acc w2, (if truthy ps then for_in echo_collect [] else ret []) w1
                    = (Ok acc, w2)) as (acc & w2 & Hw2)
    by (destruct (truthy ps); [apply for_in_collect_ok | eexists _, _; reflexivity]).
  rewrite (bind_ok _ _ w1 acc w2 Hw2).
  unfold bind.
  destruct (truthy _ && truthy _).
  - pose proof (export_selected_raises (get cfg "export" VNone)
                  (get cfg "output_filename" (VStr "tweets_output")) acc w2 k) as He.
    destruct (export_selected _ _ _ _) as [[[]|e] w3]; simpl in *;
      [discriminate | intros [= ->]; apply He; reflexivity].
  - simpl. discriminate.
Qed.

(** X26. On the namespace of any command line, whatever the
    collaborators deliver, no subscript of [main] raises [KeyError]:
    the keys it asks for, in [args_dict] for the configuration file and
    the credentials and in [config_dict] for [print_stream], are always
    there; nor do the export writers raise one.  (An exception that
    comes out of a collaborator is another ending,
    [CollaboratorRaised].) *)
Theorem parsed_run_has_its_keys occs ns w k :
  Argparse.parse_args occs = Argparse.Namespace ns →
  ended (main c ns w) ≠ Stopped (Uncaught (KeyError k)).
Proof.
  intros Hns.
  assert (∀ k, k ∈ ["credential_file"; "credential_yaml_key"; "env_overwrite";
                    "config_filename"; "account_type"; "print_stream"; "debug";
                    "output_filename"] → is_Some (ns !! k)) as Hhas.
  { intros k' Hk. apply (ArgparseFacts.namespace_has occs ns k' Hns).
    apply ArgparseFacts.dests_elem, Hk. }
  unfold main, prepare.
  destruct (load_configfile c ns) as [f|cf] eqn:Hl.
  { unfold load_configfile in Hl.
    destruct (ns !! "config_filename") as [[]|]; try discriminate Hl;
      destruct (read_config c _); try discriminate Hl; injection Hl as <-;
      discriminate. }
  destruct (move_extra_headers ns) as [f|moved] eqn:Hm.
  { unfold move_extra_headers in Hm.
    destruct (ArgparseFacts.namespace_extra_headers occs ns Hns) as [E | [s E]];
      rewrite E in Hm; [discriminate Hm|].
    destruct (Json.loads _); [discriminate Hm|]. injection Hm as <-. discriminate. }
  assert (∀ k, k ∈ ["credential_file"; "credential_yaml_key"; "env_overwrite";
                    "config_filename"; "account_type"; "print_stream"] →
               moved !! k = ns !! k ∧ is_Some (ns !! k)) as Hkeep.
  { intros k' Hk. split.
    - apply (moved_headers_other ns moved k' Hm);
        intros ->; repeat (apply elem_of_cons in Hk as [Hk | Hk]; [discriminate Hk|]);
        apply elem_of_nil in Hk; exact Hk.
    - apply Hhas. repeat (apply elem_of_cons in Hk as [-> | Hk]);
        try (apply elem_of_nil in Hk; destruct Hk); repeat constructor. }
  pose proof (proj1 (Hkeep "print_stream" ltac:(repeat constructor))) as Hkps.
  unfold item, credentials, item.
  destruct (Hkeep "config_filename" ltac:(repeat constructor)) as [-> [? ->]].
  destruct (Hkeep "credential_file" ltac:(repeat constructor)) as [-> [? ->]].
  destruct (Hkeep "account_type" ltac:(repeat constructor)) as [-> [? ->]].
  destruct (Hkeep "credential_yaml_key" ltac:(repeat constructor)) as [-> [? ->]].
  destruct (Hkeep "env_overwrite" ltac:(repeat constructor)) as [-> [? ->]].
  destruct (load_credentials c _ _ _ _) as [creds|]; [|discriminate].
  destruct (check_required (config_dict cf creds moved)) eqn:Hchk; [|discriminate].
  destruct (gen_params_from_config c _) as [params|]; [|discriminate].
  destruct (ResultStream c params) as [rs|]; [|discriminate].
  destruct (ArgparseFacts.namespace_types occs ns Hns) as ((b & Hps) & _).
  assert (config_dict cf creds moved !! "print_stream" = Some (VBool b)) as Hcfg.
  { apply cli_value_wins; [|reflexivity].
    rewrite Hkps. exact Hps. }
  pose proof (main_tail_key_error (config_dict cf creds moved)
                (set_stream (open_stream c rs (config_dict cf creds moved)) w) k) as Hr.
  destruct (main_tail _ _) as [[tweets|e] w']; simpl in *; [discriminate|].
  intros [= ->]. rewrite (Hr eq_refl) in Hcfg. discriminate Hcfg.
Qed.

End MainFacts.

(** ** [main] on the sample collaborators *)

Section MainWitnesses.
Import Config.

Lemma main_never_exports_witness :
  let c := sample_collaborators [one_tweet] in
  let args := <["export" := VStr "json"]> (<["pt_rule" := VStr "from:nasa"]>
                Argparse.defaults) in
  let w := start (Generator []) in
  (∀ all_tweets, ended (main c args w) = Done all_tweets → all_tweets = []) ∧
  ∃ echoed, stdout (after (main c args w)) = stdout w ++ map PrintJson echoed.
Proof.
  intros c args w. apply (main_never_exports c args w); intros; exact I.
Defined.

Lemma debug_log_has_no_sensitive_key_witness :
  let c := sample_collaborators [one_tweet] in
  let ns := <["config_filename" := VStr "search.yaml"]> Argparse.defaults in
  Forall (λ d : gmap string value, ∀ k, k ∈ sens_args → d !! k = None)
         (logged (main c ns (start (Generator [])))).
Proof.
  intros c ns.
  apply (debug_log_has_no_sensitive_key c with_config_file ns). reflexivity.
Defined.

Lemma parsed_run_has_its_keys_witness :
  let c := sample_collaborators [one_tweet] in
  let ns := <["config_filename" := VStr "search.yaml"]> Argparse.defaults in
  ended (main c ns (start (Sequence [one_tweet])))
  ≠ Stopped (Uncaught (KeyError "print_stream")).
Proof.
  intros c ns.
  apply (parsed_run_has_its_keys c with_config_file ns). reflexivity.
Defined.

Lemma blank_extra_headers_stop_the_run_witness :
  let c := sample_collaborators [one_tweet] in
  let args : gmap string value := {[ "extra_headers" := VStr "  " ]} in
  let w := start (Generator []) in
  ended (main c args w) = Stopped HeadersRejected ∧ after (main c args w) = w.
Proof.
  intros c args w.
  apply (blank_extra_headers_stop_the_run c args "  " w ∅);
    [reflexivity | reflexivity | repeat constructor].
Defined.

Lemma missing_required_key_exits_witness :
  let c := sample_collaborators [one_tweet] in
  let args := Argparse.defaults in
  let w := start (Generator []) in
  let creds : gmap string value :=
    {[ "endpoint" := VStr "https://api.example"; "bearer_token" := VStr "secret" ]} in
  (∀ status printed,
     check_required (config_dict ∅ creds args) = SysExit status printed →
     main c args w
     = Run (Stopped (SystemExit 1 printed)) w (logged (main c args w))) ∧
  (check_required (config_dict ∅ creds args) = Proceed →
   ∀ status printed, ended (main c args w) ≠ Stopped (SystemExit status printed)).
Proof.
  intros c args w creds.
  apply (missing_required_key_exits c args w ∅ args creds).
  - reflexivity.
  - reflexivity.
  - exists VNone. reflexivity.
  - reflexivity.
Defined.

Lemma command_line_settings_win_witness :
  let c := sample_collaborators [one_tweet] in
  let ns := <["config_filename" := VStr "search.yaml"]> Argparse.defaults in
  let cf : gmap string value :=
    {[ "pt_rule" := VStr "from:nasa"; "print_stream" := VBool false ]} in
  let creds : gmap string value :=
    {[ "endpoint" := VStr "https://api.example"; "bearer_token" := VStr "secret" ]} in
  config_dict cf creds ns !! "print_stream" = ns !! "print_stream" ∧
  ∃ v, ns !! "print_stream" = Some v ∧ is_none v = false.
Proof.
  intros c ns cf creds.
  apply (command_line_settings_win c with_config_file ns (config_dict cf creds ns)
           (Generator [one_tweet])
           [_filter_sensitive_args cf;
            _filter_sensitive_args (config_dict cf creds ns);
            _filter_sensitive_args (config_dict cf creds ns)]).
  - reflexivity.
  - unfold prepare.
    replace (ns !! "debug") with (Some (VBool false)) by reflexivity.
    replace (load_configfile c ns) with (inr cf : failure + gmap string value)
      by reflexivity.
    replace (move_extra_headers ns) with (inr ns : failure + gmap string value)
      by reflexivity.
    replace (item ns "config_filename") with (inr (VStr "search.yaml") : failure + value)
      by reflexivity.
    replace (credentials c ns) with (inr creds : failure + gmap string value)
      by reflexivity.
    replace (check_required (config_dict cf creds ns)) with Proceed
      by (symmetry; apply merged_sources_pass; intros k Hk;
          apply elem_of_union in Hk as [Hk | Hk];
          apply elem_of_singleton in Hk; subst k;
          [ exists (VStr "from:nasa") | exists (VStr "https://api.example") ];
          (split; [reflexivity|]); [left | right; left]; reflexivity).
    reflexivity.
  - repeat constructor.
Defined.

End MainWitnesses.
